(** * Deep Q-Learning agent ([rl_exercises/week_4/dqn.py])

    A shallow embedding of [DQNAgent]: the exploration schedule, action
    selection, persistence, the learner step and the training loop.

    Tensors of [float32] and Python floats are idealised as real numbers
    ([R]): rounding, infinities and NaN are outside this model.  Python
    integers are [Z].  Exceptions are values of [exn]; a raising call keeps
    the mutations performed before the raise, as the interpreter does. *)

From Stdlib Require Import ZArith List Bool Reals Lra Lia String.
From stdpp Require Import base tactics option list gmap strings.

Local Open Scope Z_scope.

(** ** Exceptions and the two monads *)

(** Python's own exception classes, plus the three classes under which the
    error taxonomy files what the collaborators raise: [ShapeMismatchError]
    for every dimensionality disagreement met while building a tensor or
    calling the approximator (numpy's and torch's shape errors),
    [InsufficientDataError] for the buffer and [PersistenceError] for
    checkpoints. *)
Inductive exn : Type :=
  | ValueError
  | ZeroDivisionError
  | IndexError
  | RuntimeError
  | ShapeMismatchError
  | InsufficientDataError
  | PersistenceError.

#[global] Instance exn_eq_dec : EqDecision exn.
Proof. solve_decision. Defined.

(** Results of pure, fallible computations. *)
Inductive result (A : Type) : Type :=
  | Ok (a : A)
  | Err (e : exn).
Arguments Ok {A} a.
Arguments Err {A} e.

Definition rbind {A B} (c : result A) (k : A -> result B) : result B :=
  match c with
  | Ok a => k a
  | Err e => Err e
  end.

(** Outcomes of stateful computations over a store [S]. *)
Inductive outcome (S A : Type) : Type :=
  | Ret (a : A) (s : S)
  | Raise (e : exn) (s : S).
Arguments Ret {S A} a s.
Arguments Raise {S A} e s.

Definition final {S A} (o : outcome S A) : S :=
  match o with
  | Ret _ s => s
  | Raise _ s => s
  end.

(** The returned value, or [d] after a raise. *)
Definition returned {S A} (d : A) (o : outcome S A) : A :=
  match o with
  | Ret a _ => a
  | Raise _ _ => d
  end.

(** The returned value or raised exception, without the store. *)
Definition result_of {S A} (o : outcome S A) : result A :=
  match o with
  | Ret a _ => Ok a
  | Raise e _ => Err e
  end.

Definition M (S A : Type) : Type := S -> outcome S A.

Definition ret {S A} (a : A) : M S A := fun s => Ret a s.

Definition bind {S A B} (c : M S A) (k : A -> M S B) : M S B :=
  fun s =>
    match c s with
    | Ret a s' => k a s'
    | Raise e s' => Raise e s'
    end.

Definition raise {S A} (e : exn) : M S A := fun s => Raise e s.

Definition get {S} : M S S := fun s => Ret s s.

Definition modify {S} (f : S -> S) : M S unit := fun s => Ret tt (f s).

Definition lift {S A} (c : result A) : M S A :=
  fun s =>
    match c with
    | Ok a => Ret a s
    | Err e => Raise e s
    end.

#[global] Instance result_ret : MRet result := fun A a => Ok a.
#[global] Instance result_bind : MBind result := fun A B k c => rbind c k.
#[global] Instance M_ret {S} : MRet (M S) := fun A a => ret a.
#[global] Instance M_bind {S} : MBind (M S) := fun A B k c => bind c k.

(** ** Numeric helpers: Python and tensor arithmetic *)

(** [a / b] on Python integers (true division). *)
Definition py_truediv (a b : Z) : result R :=
  if b =? 0 then Err ZeroDivisionError else Ok (IZR a / IZR b)%R.

(** [a % b] on Python integers; the sign follows the divisor, as [Z.modulo]. *)
Definition py_mod (a b : Z) : result Z :=
  if b =? 0 then Err ZeroDivisionError else Ok (a mod b).

(** [range(a, b)]. *)
Definition py_range (a b : Z) : list Z :=
  map (fun i => a + Z.of_nat i) (seq 0 (Z.to_nat (b - a))).

(** [l[start:]] with Python's treatment of a negative start. *)
Definition py_slice_from {A} (start : Z) (l : list A) : list A :=
  if start <? 0 then drop (length l - Z.to_nat (- start)) l
  else drop (Z.to_nat start) l.

(** [np.mean] of a list of floats. *)
Definition np_mean (l : list R) : R :=
  (fold_right Rplus 0 l / INR (length l))%R.

(** A boolean converted to [float32]. *)
Definition b2r (b : bool) : R := if b then 1%R else 0%R.

(** Elementwise tensor operations on vectors of equal length. *)
Definition vadd (x y : list R) : list R := zip_with Rplus x y.
Definition vmul (x y : list R) : list R := zip_with Rmult x y.
Definition vscale (x : list R) (c : R) : list R := map (fun v => v * c)%R x.
Definition scalar_sub (c : R) (x : list R) : list R := map (fun v => c - v)%R x.

(** [nn.MSELoss()(pred, target)]: the mean of the squared differences. *)
Definition mse_loss (pred target : list R) : R :=
  np_mean (zip_with (fun p t => (p - t) * (p - t))%R pred target).

(** [map] for a fallible function, stopping at the first error. *)
Fixpoint rmap {A B} (f : A -> result B) (l : list A) : result (list B) :=
  match l with
  | [] => Ok []
  | x :: l' => y ← f x; ys ← rmap f l'; mret (y :: ys)
  end.

(** [for x in l: acc = body(x, acc)] in the store monad. *)
Fixpoint for_each {S A B} (body : A -> B -> M S B) (l : list A) (acc : B)
  : M S B :=
  match l with
  | [] => mret acc
  | x :: l' => acc' ← body x acc; for_each body l' acc'
  end.

(** [argmax] along a row: the first index holding the maximum; torch
    rejects a reduction over a dimension of size zero. *)
Fixpoint argmax_from (best : R) (besti i : nat) (l : list R) : nat :=
  match l with
  | [] => besti
  | x :: l' =>
      if Rlt_dec best x then argmax_from x i (S i) l'
      else argmax_from best besti (S i) l'
  end.

Definition argmax (row : list R) : result Z :=
  match row with
  | [] => Err ShapeMismatchError
  | x :: l => Ok (Z.of_nat (argmax_from x 0 1 l))
  end.

(** [max] along a row (the values of [tensor.max(dim=1)[0]]). *)
Definition row_max (row : list R) : result R :=
  match row with
  | [] => Err ShapeMismatchError
  | x :: l => Ok (fold_left Rmax l x)
  end.

(** [tensor.item()]: the single element of a one-element tensor. *)
Definition item {A} (t : list A) : result A :=
  match t with
  | [x] => Ok x
  | _ => Err RuntimeError
  end.

(** [torch.tensor(np.array(rows))] for a sequence of vectors: the rows must
    agree in length. *)
Definition to_tensor (rows : list (list R)) : result (list (list R)) :=
  match rows with
  | [] => Ok []
  | r0 :: rest =>
      if forallb (fun r => length r =? length r0)%nat rest then Ok rows
      else Err ShapeMismatchError
  end.

(** [values.gather(1, a).squeeze(1)]: per sample, the entry of the row at
    the sample's index. *)
Definition gather (values : list (list R)) (a : list Z) : result (list R) :=
  rmap (fun '(row, i) =>
          if (0 <=? i) && (i <? Z.of_nat (length row))
          then Ok (nth (Z.to_nat i) row 0%R)
          else Err ShapeMismatchError)
       (zip values a).

(** The regression target of the learner,
    [r + (1.0 - mask) * gamma * max_next_q], on tensors. *)
Definition td_target (gamma : R) (r mask max_next_q : list R) : list R :=
  vadd r (vmul (vscale (scalar_sub 1 mask) gamma) max_next_q).

(** ** Data model *)

(** A transition as the loop stores it:
    [(state, action, reward, next_state, done, info)]; the info mapping is
    always the empty dict. *)
Record Transition : Type := {
  t_state : list R;
  t_action : Z;
  t_reward : R;
  t_next_state : list R;
  t_done : bool;
  t_info : unit
}.

(** Modelled from the spec: the replay buffer ([rl_exercises.week_4.buffers]
    is not part of the sources).  An ordered store of bounded capacity;
    [add] discards the oldest element first when the store is full. *)
Record ReplayBuffer : Type := {
  capacity : Z;
  storage : list Transition
}.

(** Modelled from the spec: the buffer's [size()], read by [len(buffer)]. *)
Definition buffer_len (b : ReplayBuffer) : Z := Z.of_nat (length (storage b)).

(** Modelled from the spec: the buffer's [add].  When the current size
    equals the capacity the oldest stored transition is discarded first. *)
Definition buffer_add (t : Transition) (b : ReplayBuffer) : ReplayBuffer :=
  {| capacity := capacity b;
     storage := (if buffer_len b =? capacity b then tail (storage b)
                 else storage b) ++ [t] |}.

(** The hyperparameters set by [__init__] and never assigned again. *)
Record Hyper : Type := {
  batch_size : Z;
  gamma : R;
  epsilon_start : R;
  epsilon_final : R;
  epsilon_decay : Z;
  target_update_freq : Z
}.

(** The loop's local variables. *)
Record Locals : Type := {
  state : list R;
  ep_reward : R;
  recent_rewards : list R
}.

(** ** Vocabulary of the statements *)

(** The weakest precondition of a computation: [Q] for a returned value,
    [E] for a raised exception. *)
Definition wp {S A} (c : M S A) (Q : A -> S -> Prop) (E : exn -> S -> Prop)
  (s : S) : Prop :=
  match c s with
  | Ret a s' => Q a s'
  | Raise e s' => E e s'
  end.

(** A computation keeps the projection [f] of the store, whether it
    returns or raises. *)
Definition preserves {S X A} (f : S -> X) (c : M S A) : Prop :=
  forall s, f (final (c s)) = f s.

(** A computation raises only exceptions in [P]. *)
Definition raises_only {S A} (P : exn -> Prop) (c : M S A) : Prop :=
  forall s, wp c (fun _ _ => True) (fun e _ => P e) s.

Definition not_insufficient (e : exn) : Prop := e <> InsufficientDataError.

(** [a] is the lowest index at which [row] takes its maximum. *)
Definition first_argmax (row : list R) (a : Z) : Prop :=
  exists (i : nat) (v : R),
    a = Z.of_nat i /\ row !! i = Some v
    /\ (forall j x, row !! j = Some x -> (x <= v)%R)
    /\ (forall j x, (j < i)%nat -> row !! j = Some x -> (x < v)%R).

(** [m] is the largest entry of [row]. *)
Definition is_max (row : list R) (m : R) : Prop :=
  m ∈ row /\ forall x, x ∈ row -> (x <= m)%R.

(** The schedule as the specification words it, on real numbers. *)
Definition epsilon_spec (eps_start eps_final decay t : R) : R :=
  (eps_final + (eps_start - eps_final) * exp (- t / decay))%R.

(** The last [k] elements of a list (all of it when it is shorter). *)
Definition most_recent {A} (k : nat) (l : list A) : list A :=
  drop (length l - k) l.

(** The mean reward a checkpoint records. *)
Definition checkpoint_mean (ei : Z) (recent : list R) : R :=
  match recent with
  | [] => 0%R
  | _ => np_mean (most_recent (Z.to_nat ei) recent)
  end.

(** Whether [frame] is a checkpoint. *)
Definition is_checkpoint (ei frame : Z) : bool := frame mod ei =? 0.

(** The checkpoints among a list of frames. *)
Definition checkpoints (ei : Z) (frames : list Z) : list Z :=
  filter (fun f => is_checkpoint ei f = true) frames.

(** ** The agent *)

Section DQN.

(** The collaborators: approximator parameters, optimizer state,
    environment state, the state of numpy's global generator and the
    shape signature compared by [load_state_dict]. *)
Context {Params OptState EnvState Rng Arch : Type} `{EqDecision Arch}.

(** [env.observation_space.shape[0]], the approximator's input size. *)
Variable obs_dim : nat.
(** The approximator on one state ([rl_exercises.week_4.networks] is not
    part of the sources): per-action value estimates. *)
Variable net : Params -> list R -> list R.
(** [optimizer.zero_grad(); loss.backward(); optimizer.step()] for the
    loss of the online parameters on states [s], actions [a] and the
    detached [target]. *)
Variable adam_step :
  Params -> OptState -> list (list R) -> list Z -> list R -> Params * OptState.
Variable params_arch : Params -> Arch.
Variable optim_arch : OptState -> Arch.
(** [np.random.rand()] and a raw integer draw of the same generator. *)
Variable rand : Rng -> R * Rng.
Variable randint : Rng -> nat * Rng.
(** The environment: [reset()], [step(action)] (observation, reward,
    done, truncated) and [action_space.sample()]. *)
Variable env_reset : EnvState -> list R * EnvState.
Variable env_step : Z -> EnvState -> (list R * R * bool * bool) * EnvState.
Variable action_space_sample : EnvState -> Z * EnvState.
(** Construction: the approximator initialised under the torch seed, a
    new Adam state for given parameters and learning rate, and the
    seeding of numpy and of the environment. *)
Variable q_init : Z -> Params.
Variable adam_init : Params -> R -> OptState.
Variable np_seed : Z -> Rng.
Variable env_seed : Z -> EnvState -> EnvState.

(** The artifact written by [save]. *)
Record Checkpoint : Type := {
  ck_parameters : Params;
  ck_optimizer : OptState
}.

(** The store: the agent's attributes, numpy's global generator and the
    file system. *)
Record World : Type := {
  env : EnvState;
  q : Params;
  target_q : Params;
  optimizer : OptState;
  buffer : ReplayBuffer;
  hp : Hyper;
  total_steps : Z;
  frame_history : list Z;
  mean_reward_history : list R;
  np_random : Rng;
  disk : gmap string Checkpoint
}.

Definition set_env (x : EnvState) (w : World) : World :=
  {| env := x; q := q w; target_q := target_q w; optimizer := optimizer w;
     buffer := buffer w; hp := hp w; total_steps := total_steps w;
     frame_history := frame_history w;
     mean_reward_history := mean_reward_history w;
     np_random := np_random w; disk := disk w |}.

Definition set_q (x : Params) (w : World) : World :=
  {| env := env w; q := x; target_q := target_q w; optimizer := optimizer w;
     buffer := buffer w; hp := hp w; total_steps := total_steps w;
     frame_history := frame_history w;
     mean_reward_history := mean_reward_history w;
     np_random := np_random w; disk := disk w |}.

Definition set_target_q (x : Params) (w : World) : World :=
  {| env := env w; q := q w; target_q := x; optimizer := optimizer w;
     buffer := buffer w; hp := hp w; total_steps := total_steps w;
     frame_history := frame_history w;
     mean_reward_history := mean_reward_history w;
     np_random := np_random w; disk := disk w |}.

Definition set_optimizer (x : OptState) (w : World) : World :=
  {| env := env w; q := q w; target_q := target_q w; optimizer := x;
     buffer := buffer w; hp := hp w; total_steps := total_steps w;
     frame_history := frame_history w;
     mean_reward_history := mean_reward_history w;
     np_random := np_random w; disk := disk w |}.

Definition set_buffer (x : ReplayBuffer) (w : World) : World :=
  {| env := env w; q := q w; target_q := target_q w; optimizer := optimizer w;
     buffer := x; hp := hp w; total_steps := total_steps w;
     frame_history := frame_history w;
     mean_reward_history := mean_reward_history w;
     np_random := np_random w; disk := disk w |}.

Definition set_total_steps (x : Z) (w : World) : World :=
  {| env := env w; q := q w; target_q := target_q w; optimizer := optimizer w;
     buffer := buffer w; hp := hp w; total_steps := x;
     frame_history := frame_history w;
     mean_reward_history := mean_reward_history w;
     np_random := np_random w; disk := disk w |}.

Definition set_frame_history (x : list Z) (w : World) : World :=
  {| env := env w; q := q w; target_q := target_q w; optimizer := optimizer w;
     buffer := buffer w; hp := hp w; total_steps := total_steps w;
     frame_history := x;
     mean_reward_history := mean_reward_history w;
     np_random := np_random w; disk := disk w |}.

Definition set_mean_reward_history (x : list R) (w : World) : World :=
  {| env := env w; q := q w; target_q := target_q w; optimizer := optimizer w;
     buffer := buffer w; hp := hp w; total_steps := total_steps w;
     frame_history := frame_history w;
     mean_reward_history := x;
     np_random := np_random w; disk := disk w |}.

Definition set_np_random (x : Rng) (w : World) : World :=
  {| env := env w; q := q w; target_q := target_q w; optimizer := optimizer w;
     buffer := buffer w; hp := hp w; total_steps := total_steps w;
     frame_history := frame_history w;
     mean_reward_history := mean_reward_history w;
     np_random := x; disk := disk w |}.

Definition set_disk (x : gmap string Checkpoint) (w : World) : World :=
  {| env := env w; q := q w; target_q := target_q w; optimizer := optimizer w;
     buffer := buffer w; hp := hp w; total_steps := total_steps w;
     frame_history := frame_history w;
     mean_reward_history := mean_reward_history w;
     np_random := np_random w; disk := x |}.

(** *** Calls into the collaborators *)

Definition np_random_rand : M World R :=
  fun w => let '(u, g) := rand (np_random w) in Ret u (set_np_random g w).

Definition np_random_randint : M World nat :=
  fun w => let '(n, g) := randint (np_random w) in Ret n (set_np_random g w).

Definition env_do_reset : M World (list R) :=
  fun w => let '(s, e) := env_reset (env w) in Ret s (set_env e w).

Definition env_do_step (action : Z) : M World (list R * R * bool * bool) :=
  fun w => let '(r, e) := env_step action (env w) in Ret r (set_env e w).

Definition env_action_space_sample : M World Z :=
  fun w => let '(a, e) := action_space_sample (env w) in Ret a (set_env e w).

(** Modelled from the spec: the approximator called on a batch of states
    (the network class is not part of the sources).  It has a known input
    size and rejects a state of another dimensionality. *)
Definition forward (p : Params) (batch : list (list R))
  : result (list (list R)) :=
  if forallb (fun s => length s =? obs_dim)%nat batch
  then Ok (map (net p) batch)
  else Err ShapeMismatchError.

(** Modelled from the spec: the draws of [ReplayBuffer.sample] (the buffer
    class is not part of the sources): one index per slot, uniformly over
    the current contents, with replacement. *)
Fixpoint buffer_draw (k : nat) : M World (list Transition) :=
  match k with
  | O => mret []
  | S k' =>
      i ← np_random_randint;
      w ← get;
      t ← match storage (buffer w) !! (i mod length (storage (buffer w)))%nat with
          | Some t => mret t
          | None => raise IndexError
          end;
      ts ← buffer_draw k';
      mret (t :: ts)
  end.

(** Modelled from the spec: [ReplayBuffer.sample(n)].  It requires
    [n <= size], fails with [InsufficientDataError] otherwise, and returns
    [n] stored transitions. *)
Definition buffer_sample (n : Z) : M World (list Transition) :=
  w ← get;
  if buffer_len (buffer w) <? n then raise InsufficientDataError
  else buffer_draw (Z.to_nat n).

(** *** [DQNAgent.epsilon] *)

Definition epsilon : M World R :=
  w ← get;
  x ← lift (py_truediv (- total_steps w) (epsilon_decay (hp w)));
  mret (epsilon_final (hp w)
        + (epsilon_start (hp w) - epsilon_final (hp w)) * exp x)%R.

(** *** [DQNAgent.predict_action] *)

(** The greedy branch, written twice in the source with the same text:
    the online approximator on the one-state batch, then
    [argmax(dim=1).item()]. *)
Definition greedy_action (state : list R) : M World Z :=
  w ← get;
  qvals ← lift (forward (q w) [state]);
  lift (idx ← rmap argmax qvals; item idx).

Definition predict_action (state : list R) (evaluate : bool) : M World Z :=
  if evaluate then greedy_action state
  else
    u ← np_random_rand;
    eps ← epsilon;
    if Rlt_dec u eps then env_action_space_sample
    else greedy_action state.

(** *** [DQNAgent.save] and [DQNAgent.load] *)

(** [torch.save] of the two state dicts under one path, and [torch.load]
    followed by the two [load_state_dict] calls.  The file system is a
    finite map on which a write succeeds; a missing file and a state dict
    of another architecture end in [PersistenceError]. *)

Definition save (path : string) : M World unit :=
  w ← get;
  modify (set_disk (<[path :=
    {| ck_parameters := q w; ck_optimizer := optimizer w |}]> (disk w))).

Definition load (path : string) : M World unit :=
  w ← get;
  checkpoint ← match disk w !! path with
               | Some c => mret c
               | None => raise PersistenceError
               end;
  (if decide (params_arch (ck_parameters checkpoint) = params_arch (q w))
   then modify (set_q (ck_parameters checkpoint))
   else raise PersistenceError);;
  if decide (optim_arch (ck_optimizer checkpoint) = optim_arch (optimizer w))
  then modify (set_optimizer (ck_optimizer checkpoint))
  else raise PersistenceError.

(** *** [DQNAgent.update_agent] *)

(** The batch transposed by [zip] and unpacked into six names: an empty
    batch has nothing to unpack. *)
Definition unzip_batch (training_batch : list Transition)
  : result (list (list R) * list Z * list R * list (list R) * list bool) :=
  match training_batch with
  | [] => Err ValueError
  | _ =>
      Ok (map t_state training_batch, map t_action training_batch,
          map t_reward training_batch, map t_next_state training_batch,
          map t_done training_batch)
  end.

Definition update_agent (training_batch : list Transition) : M World R :=
  '(states, actions, rewards, next_states, dones) ←
    lift (unzip_batch training_batch);
  s ← lift (to_tensor states);
  let a := actions in
  let r := rewards in
  s_next ← lift (to_tensor next_states);
  let mask := map b2r dones in
  w ← get;
  q_values ← lift (forward (q w) s);
  pred ← lift (gather q_values a);
  next_q ← lift (forward (target_q w) s_next);
  max_next_q ← lift (rmap row_max next_q);
  let target := td_target (gamma (hp w)) r mask max_next_q in
  let loss := mse_loss pred target in
  let '(q', opt') := adam_step (q w) (optimizer w) s a target in
  modify (set_q q');;
  modify (set_optimizer opt');;
  w ← get;
  m ← lift (py_mod (total_steps w) (target_update_freq (hp w)));
  (if m =? 0 then modify (set_target_q (q w)) else mret tt);;
  modify (set_total_steps (total_steps w + 1));;
  mret loss.

(** *** [DQNAgent.train] *)

(** The block "update if ready" of the loop:
    [if len(self.buffer) >= self.batch_size:] sample a batch and make one
    learner step. *)
Definition update_if_ready : M World unit :=
  w ← get;
  if buffer_len (buffer w) >=? batch_size (hp w)
  then batch ← buffer_sample (batch_size (hp w));
       _ ← update_agent batch;
       mret tt
  else mret tt.

(** The block [if done or truncated:] of the loop: reset the
    environment and move the finished episode's reward to the recent
    rewards.  It yields the loop's locals for the next pass. *)
Definition end_episode (ended : bool) (next_state : list R) (ep_reward : R)
    (recent_rewards : list R) : M World Locals :=
  if ended
  then state ← env_do_reset;
       mret {| state := state; ep_reward := 0%R;
               recent_rewards := recent_rewards ++ [ep_reward] |}
  else mret {| state := next_state; ep_reward := ep_reward;
               recent_rewards := recent_rewards |}.

(** The block "log every eval_interval frames" of the loop; the printed
    progress line is not part of the store. *)
Definition log_progress (eval_interval frame : Z) (recent_rewards : list R)
  : M World unit :=
  m ← lift (py_mod frame eval_interval);
  if m =? 0
  then
    let mean_r :=
      match recent_rewards with
      | [] => 0%R
      | _ => np_mean (py_slice_from (- eval_interval) recent_rewards)
      end in
    w ← get;
    modify (set_frame_history (frame_history w ++ [frame]));;
    w ← get;
    modify (set_mean_reward_history (mean_reward_history w ++ [mean_r]))
  else mret tt.

(** One pass through the body of [for frame in range(1, num_frames + 1)]. *)
Definition train_body (eval_interval : Z) (frame : Z) (loc : Locals)
  : M World Locals :=
  action ← predict_action (state loc) false;
  '(next_state, reward, done, truncated) ← env_do_step action;
  w ← get;
  modify (set_buffer (buffer_add
    {| t_state := state loc; t_action := action; t_reward := reward;
       t_next_state := next_state; t_done := done || truncated;
       t_info := tt |} (buffer w)));;
  update_if_ready;;
  loc' ← end_episode (done || truncated) next_state
           (ep_reward loc + reward)%R (recent_rewards loc);
  log_progress eval_interval frame (recent_rewards loc');;
  mret loc'.

Definition train (num_frames eval_interval : Z) : M World unit :=
  state0 ← env_do_reset;
  _ ← for_each (train_body eval_interval) (py_range 1 (num_frames + 1))
        {| state := state0; ep_reward := 0%R; recent_rewards := [] |};
  mret tt.

(** *** [DQNAgent.__init__] *)

(** A new agent on environment [e] with file system [fs]: seeding, two
    approximators with the target loaded from the online one, a new Adam
    state, an empty buffer, the hyperparameters, and counters at zero.
    The constructor of the base class ([rl_exercises.agent], not part of
    the sources) is taken to set nothing that the methods below read. *)
Definition init (e : EnvState) (buffer_capacity batch_size : Z)
    (lr gamma epsilon_start epsilon_final : R)
    (epsilon_decay target_update_freq seed : Z)
    (fs : gmap string Checkpoint) : World :=
  {| env := env_seed seed e;
     q := q_init seed;
     target_q := q_init seed;
     optimizer := adam_init (q_init seed) lr;
     buffer := {| capacity := buffer_capacity; storage := [] |};
     hp := {| batch_size := batch_size; gamma := gamma;
              epsilon_start := epsilon_start;
              epsilon_final := epsilon_final;
              epsilon_decay := epsilon_decay;
              target_update_freq := target_update_freq |};
     total_steps := 0;
     frame_history := [];
     mean_reward_history := [];
     np_random := np_seed seed;
     disk := fs |}.

(** A sequence of learner steps, one per batch, collecting the losses. *)
Fixpoint update_agent_seq (batches : list (list Transition))
  : M World (list R) :=
  match batches with
  | [] => mret []
  | b :: bs => l ← update_agent b; ls ← update_agent_seq bs; mret (l :: ls)
  end.

(** *** Vocabulary of the statements about the agent *)

(** What a call may change: everything of the store except the
    environment and numpy's generator is as before. *)
Definition agent_frame (w w' : World) : Prop :=
  buffer w' = buffer w /\ q w' = q w /\ target_q w' = target_q w
  /\ optimizer w' = optimizer w /\ total_steps w' = total_steps w
  /\ frame_history w' = frame_history w
  /\ mean_reward_history w' = mean_reward_history w
  /\ hp w' = hp w /\ disk w' = disk w.

(** The store after a learner step that passed every check. *)
Definition after_update (w : World) (q' : Params) (opt' : OptState) : World :=
  let w1 := set_optimizer opt' (set_q q' w) in
  set_total_steps (total_steps w + 1)
    (if total_steps w mod target_update_freq (hp w) =? 0
     then set_target_q q' w1 else w1).

(** The tensors a learner step computes from its batch. *)
Record UpdateTrace : Type := {
  u_q_values : list (list R);
  u_pred : list R;
  u_next_q : list (list R);
  u_max_next_q : list R
}.

(** The tensors of a learner step on batch [b] in store [w], when every
    check passes. *)
Definition trace_of (b : list Transition) (w : World) (u : UpdateTrace) : Prop :=
  b <> []
  /\ to_tensor (map t_state b) = Ok (map t_state b)
  /\ to_tensor (map t_next_state b) = Ok (map t_next_state b)
  /\ forward (q w) (map t_state b) = Ok (u_q_values u)
  /\ gather (u_q_values u) (map t_action b) = Ok (u_pred u)
  /\ forward (target_q w) (map t_next_state b) = Ok (u_next_q u)
  /\ rmap row_max (u_next_q u) = Ok (u_max_next_q u).

(** The regression target of that step. *)
Definition u_target (b : list Transition) (w : World) (u : UpdateTrace) : list R :=
  td_target (gamma (hp w)) (map t_reward b) (map b2r (map t_done b))
    (u_max_next_q u).

(** A transition the learner step accepts in store [w]: both states have
    the approximator's input size, the action indexes an output of the
    online approximator, and the target approximator has outputs. *)
Definition sample_ok (w : World) (t : Transition) : Prop :=
  length (t_state t) = obs_dim
  /\ length (t_next_state t) = obs_dim
  /\ 0 <= t_action t < Z.of_nat (length (net (q w) (t_state t)))
  /\ net (target_q w) (t_next_state t) <> [].

(** What the loop keeps while it interacts and learns. *)
Definition kept (w : World) : Hyper * list Z * list R * ReplayBuffer :=
  (hp w, frame_history w, mean_reward_history w, buffer w).

(** The two histories. *)
Definition hist (w : World) : list Z * list R :=
  (frame_history w, mean_reward_history w).

(** The transition one pass of the loop stores, from the action chosen
    and the environment's answer. *)
Definition stored (loc : Locals) (action : Z)
    (r : list R * R * bool * bool) : Transition :=
  let '(next_state, reward, done, truncated) := r in
  {| t_state := state loc; t_action := action; t_reward := reward;
     t_next_state := next_state; t_done := done || truncated;
     t_info := tt |}.

(** What one call of the logging block does to the store. *)
Definition logged (ei frame : Z) (recent : list R) (w w' : World) : Prop :=
  frame_history w' =
    frame_history w ++ (if is_checkpoint ei frame then [frame] else [])
  /\ mean_reward_history w' =
      mean_reward_history w ++
        (if is_checkpoint ei frame then [checkpoint_mean ei recent] else [])
  /\ kept w' = (hp w, frame_history w', mean_reward_history w', buffer w).

(** A well-behaved environment for an approximator with [n_actions]
    outputs: observations have the input size and sampled actions are
    valid indices. *)
Definition env_ok (n_actions : nat) : Prop :=
  (forall e, length (env_reset e).1 = obs_dim)
  /\ (forall a e, length (env_step a e).1.1.1.1 = obs_dim)
  /\ (forall e, 0 <= (action_space_sample e).1 < Z.of_nat n_actions).

(** The approximator's shape contract. *)
Definition net_ok (n_actions : nat) : Prop :=
  forall p s, length s = obs_dim -> length (net p s) = n_actions.

(** A stored transition that came from such an environment. *)
Definition stored_ok (n_actions : nat) (t : Transition) : Prop :=
  length (t_state t) = obs_dim
  /\ length (t_next_state t) = obs_dim
  /\ 0 <= t_action t < Z.of_nat n_actions.

(** A store from which the loop can run: what the buffer holds came from
    this environment, and the three hyperparameters the loop divides by
    or samples with are usable. *)
Definition train_ready (n_actions : nat) (w : World) : Prop :=
  Forall (stored_ok n_actions) (storage (buffer w))
  /\ epsilon_decay (hp w) <> 0
  /\ target_update_freq (hp w) <> 0
  /\ 0 < batch_size (hp w).

(** *** Vocabulary of the further properties *)

(** What interaction with the environment leaves alone: the two
    approximators, the optimizer, the step counter, the hyperparameters
    and the file system. *)
Definition learner_state (w : World)
  : Params * Params * OptState * Z * Hyper * gmap string Checkpoint :=
  (q w, target_q w, optimizer w, total_steps w, hp w, disk w).

(** What a learner step leaves alone. *)
Definition outside_learner (w : World)
  : EnvState * ReplayBuffer * Hyper * list Z * list R * Rng
    * gmap string Checkpoint :=
  (env w, buffer w, hp w, frame_history w, mean_reward_history w,
   np_random w, disk w).

(** What [load] leaves alone. *)
Definition outside_checkpoint (w : World)
  : EnvState * Params * ReplayBuffer * Hyper * Z * list Z * list R * Rng
    * gmap string Checkpoint :=
  (env w, target_q w, buffer w, hp w, total_steps w, frame_history w,
   mean_reward_history w, np_random w, disk w).

(** A transition the learner step cannot use in store [w]. *)
Definition malformed (w : World) (t : Transition) : Prop :=
  length (t_state t) <> obs_dim
  \/ length (t_next_state t) <> obs_dim
  \/ ~ (0 <= t_action t < Z.of_nat (length (net (q w) (t_state t)))).

End DQN.

(** ** A small concrete instance

    A one-dimensional observation, two actions, integer "parameters" that
    the optimizer step increments, and an environment that never ends an
    episode.  Used to run the definitions on concrete inputs. *)
Module Toy.

Definition net (p : Z) (s : list R) : list R := [IZR p; 0%R].
Definition adam_step (p : Z) (o : nat) (s : list (list R)) (a : list Z)
    (target : list R) : Z * nat := (p + 1, S o).
Definition arch (p : Z) : unit := tt.
Definition oarch (o : nat) : unit := tt.
Definition rand (g : nat) : R * nat := (0%R, S g).
Definition randint (g : nat) : nat * nat := (g, S g).
Definition env_reset (e : nat) : list R * nat := ([0%R], e).
Definition env_step (a : Z) (e : nat) : (list R * R * bool * bool) * nat :=
  (([0%R], 1%R, false, false), S e).
Definition action_space_sample (e : nat) : Z * nat := (0, e).
Definition q_init (seed : Z) : Z := seed.
Definition adam_init (p : Z) (lr : R) : nat := O.
Definition np_seed (seed : Z) : nat := Z.to_nat seed.
Definition env_seed (seed : Z) (e : nat) : nat := e.

Definition tr (d : bool) : Transition :=
  {| t_state := [0%R]; t_action := 0; t_reward := 1%R;
     t_next_state := [0%R]; t_done := d; t_info := tt |}.

(** A new agent with the given synchronisation period. *)
Definition fresh (freq : Z) : @World Z nat nat nat :=
  init q_init adam_init np_seed env_seed O 100 8 0.001 0.99 1 0.01 50 freq 0 ∅.

(** A new agent whose exploration schedule has the given decay. *)
Definition fresh_decay (decay : Z) : @World Z nat nat nat :=
  init q_init adam_init np_seed env_seed O 100 8 0.001 0.99 1 0.01 decay 10 0 ∅.

Definition update_agent : list Transition -> M (@World Z nat nat nat) R :=
  update_agent 1 net adam_step.
Definition update_agent_seq
  : list (list Transition) -> M (@World Z nat nat nat) (list R) :=
  update_agent_seq 1 net adam_step.

End Toy.

(** ** The helpers on concrete inputs *)

Example py_range_1_4 : py_range 1 4 = [1; 2; 3].
Proof. reflexivity. Qed.

Example py_range_empty : py_range 1 1 = [].
Proof. reflexivity. Qed.

Example py_mod_negative_dividend : py_mod (-1) 3 = Ok 2.
Proof. reflexivity. Qed.

Example py_mod_negative_divisor : py_mod 7 (-3) = Ok (-2).
Proof. reflexivity. Qed.

Example py_mod_zero : py_mod 7 0 = Err ZeroDivisionError.
Proof. reflexivity. Qed.

Example py_slice_last_two : py_slice_from (-2) [10; 20; 30] = [20; 30].
Proof. reflexivity. Qed.

Example py_slice_short_list : py_slice_from (-5) [10; 20; 30] = [10; 20; 30].
Proof. reflexivity. Qed.

Example py_slice_negative_interval : py_slice_from 2 [10; 20; 30] = [30].
Proof. reflexivity. Qed.

Example argmax_tie_lowest : argmax [1; 3; 3; 2]%R = Ok 1.
Proof.
  unfold argmax. cbn.
  destruct (Rlt_dec 1 3); [|lra].
  destruct (Rlt_dec 3 3); [lra|].
  destruct (Rlt_dec 3 2); [lra|]. reflexivity.
Qed.

Example argmax_empty : argmax [] = Err ShapeMismatchError.
Proof. reflexivity. Qed.

Example row_max_three : row_max [1; 3; 2]%R = Ok 3%R.
Proof.
  unfold row_max. cbn. f_equal.
  rewrite (Rmax_right 1 3) by lra. apply Rmax_left. lra.
Qed.

Example gather_two_rows :
  gather [[1; 2]; [3; 4]]%R [1; 0] = Ok [2; 3]%R.
Proof. reflexivity. Qed.

Example gather_out_of_range :
  gather [[1; 2]; [3; 4]]%R [1; 2] = Err ShapeMismatchError.
Proof. reflexivity. Qed.

Example to_tensor_ragged :
  to_tensor [[1; 2]; [3]]%R = Err ShapeMismatchError.
Proof. reflexivity. Qed.

Example td_target_two_samples :
  td_target (1 / 2) [1; 2]%R [b2r true; b2r false] [10; 20]%R = [1; 12]%R.
Proof. cbn. f_equal; [|f_equal]; lra. Qed.

Example buffer_add_evicts_oldest (t1 t2 t3 : Transition) :
  storage (buffer_add t3 {| capacity := 2; storage := [t1; t2] |}) = [t2; t3].
Proof. reflexivity. Qed.

Example buffer_add_below_capacity (t1 t2 : Transition) :
  storage (buffer_add t2 {| capacity := 2; storage := [t1] |}) = [t1; t2].
Proof. reflexivity. Qed.

(** ** Reasoning about the store monad *)

Section WP.
Context {S : Type}.
Implicit Types (s : S) (E : exn -> S -> Prop).
Local Abbreviation preserves := (@preserves S).
Local Abbreviation raises_only := (@raises_only S).

Lemma mbind_run {A B} (c : M S A) (k : A -> M S B) s :
  (c ≫= k) s =
    match c s with
    | Ret a s' => k a s'
    | Raise e s' => Raise e s'
    end.
Proof. done. Qed.

Lemma wp_ret {A} (a : A) (Q : A -> S -> Prop) E s :
  Q a s -> wp (mret a) Q E s.
Proof. done. Qed.

Lemma wp_bind {A B} (c : M S A) (k : A -> M S B) (Q : B -> S -> Prop) E s :
  wp c (fun a s' => wp (k a) Q E s') E s -> wp (c ≫= k) Q E s.
Proof.
  unfold wp. change ((c ≫= k) s) with (bind c k s).
  unfold bind. by destruct (c s).
Qed.

Lemma wp_get (Q : S -> S -> Prop) E s : Q s s -> wp get Q E s.
Proof. done. Qed.

Lemma wp_modify (f : S -> S) (Q : unit -> S -> Prop) E s :
  Q tt (f s) -> wp (modify f) Q E s.
Proof. done. Qed.

Lemma wp_lift {A} (r : result A) (Q : A -> S -> Prop) E s :
  match r with Ok a => Q a s | Err e => E e s end -> wp (lift r) Q E s.
Proof. unfold wp, lift. by destruct r. Qed.

Lemma wp_mono {A} (c : M S A) (Q Q' : A -> S -> Prop) E E' s :
  wp c Q E s ->
  (forall a s', Q a s' -> Q' a s') ->
  (forall e s', E e s' -> E' e s') ->
  wp c Q' E' s.
Proof. unfold wp. destruct (c s); auto. Qed.

Lemma wp_conj {A} (c : M S A) (Q Q' : A -> S -> Prop) E E' s :
  wp c Q E s -> wp c Q' E' s ->
  wp c (fun a s' => Q a s' /\ Q' a s') (fun e s' => E e s' /\ E' e s') s.
Proof. unfold wp. destruct (c s); auto. Qed.


Lemma wp_total {A} (c : M S A) (Q : A -> S -> Prop) s :
  wp c Q (fun _ _ => False) s -> exists a s', c s = Ret a s' /\ Q a s'.
Proof. unfold wp. destruct (c s); [eauto | done]. Qed.

(** A loop keeps an invariant that every pass keeps. *)
Lemma wp_for_each {A B} (body : A -> B -> M S B) (I : B -> S -> Prop) E
    (l : list A) :
  (forall x acc s, x ∈ l -> I acc s -> wp (body x acc) I E s) ->
  forall acc s, I acc s -> wp (for_each body l acc) I E s.
Proof.
  induction l as [|x l IH]; intros Hbody acc s HI; cbn.
  - by apply wp_ret.
  - apply wp_bind. eapply wp_mono.
    + apply Hbody; [left | done].
    + intros acc' s' HI'. apply IH; [|done].
      intros y acc'' s'' Hy. apply Hbody. by right.
    + done.
Qed.

(** The same with the list of elements already visited. *)
Lemma wp_for_each_visited {A B} (body : A -> B -> M S B)
    (I : list A -> B -> S -> Prop) E (rest : list A) :
  (forall pre x acc s, I pre acc s -> wp (body x acc) (I (pre ++ [x])) E s) ->
  forall pre acc s, I pre acc s ->
    wp (for_each body rest acc) (I (pre ++ rest)) E s.
Proof.
  intros Hbody. induction rest as [|x rest IH]; intros pre acc s HI; cbn.
  - rewrite app_nil_r. by apply wp_ret.
  - apply wp_bind. eapply wp_mono; [by apply Hbody | | done].
    intros acc' s' HI'. cbn in HI'.
    replace (pre ++ x :: rest) with ((pre ++ [x]) ++ rest)
      by (by rewrite <- app_assoc).
    by apply IH.
Qed.

Lemma preserves_ret {X A} (f : S -> X) (a : A) : preserves f (mret a).
Proof. done. Qed.

Lemma preserves_get {X} (f : S -> X) : preserves f get.
Proof. done. Qed.

Lemma preserves_raise {X A} (f : S -> X) e : preserves f (raise e : M S A).
Proof. done. Qed.

Lemma preserves_lift {X A} (f : S -> X) (r : result A) : preserves f (lift r).
Proof. intros s. unfold lift. by destruct r. Qed.

Lemma preserves_modify {X} (f : S -> X) (g : S -> S) :
  (forall s, f (g s) = f s) -> preserves f (modify g).
Proof. intros Hg s. apply Hg. Qed.

Lemma preserves_bind {X A B} (f : S -> X) (c : M S A) (k : A -> M S B) :
  preserves f c -> (forall a, preserves f (k a)) -> preserves f (c ≫= k).
Proof.
  intros Hc Hk s. specialize (Hc s).
  change ((c ≫= k) s) with (bind c k s). unfold bind.
  destruct (c s) as [a s'|e s']; cbn in *; [|done].
  by rewrite Hk.
Qed.

Lemma preserves_wp {X A} (f : S -> X) (c : M S A) s :
  preserves f c ->
  wp c (fun _ s' => f s' = f s) (fun _ s' => f s' = f s) s.
Proof. intros Hc. specialize (Hc s). unfold wp. by destruct (c s). Qed.

Lemma raises_only_ret {A} P (a : A) : raises_only P (mret a).
Proof. intros s. exact I. Qed.

Lemma raises_only_get P : raises_only P get.
Proof. intros s. exact I. Qed.

Lemma raises_only_modify P (g : S -> S) : raises_only P (modify g).
Proof. intros s. exact I. Qed.

Lemma raises_only_raise {A} (P : exn -> Prop) e :
  P e -> raises_only P (raise e : M S A).
Proof. intros He s. exact He. Qed.

Lemma raises_only_lift {A} (P : exn -> Prop) (r : result A) :
  (forall e, r = Err e -> P e) -> raises_only P (lift r).
Proof. intros Hr s. apply wp_lift. destruct r; auto. Qed.

Lemma raises_only_bind {A B} P (c : M S A) (k : A -> M S B) :
  raises_only P c -> (forall a, raises_only P (k a)) ->
  raises_only P (c ≫= k).
Proof.
  intros Hc Hk s. apply wp_bind. eapply wp_mono; [apply Hc | | done].
  intros a s' _. apply Hk.
Qed.

Lemma wp_preserves {X A} (f : S -> X) (c : M S A) (Q : A -> S -> Prop) E s :
  preserves f c -> wp c Q E s ->
  wp c (fun a s' => Q a s' /\ f s' = f s) E s.
Proof.
  intros Hc Hwp. specialize (Hc s). unfold wp in *.
  by destruct (c s).
Qed.

Lemma raises_only_Raise {A} P (c : M S A) s e s' :
  raises_only P c -> c s = Raise e s' -> P e.
Proof. intros Hc Hrun. specialize (Hc s). unfold wp in Hc. by rewrite Hrun in Hc. Qed.

End WP.

(** Unfolding of the monad operations, down to matches on outcomes. *)
Ltac monad_unfold :=
  cbv [mbind M_bind bind mret M_ret ret get modify lift raise
       result_bind result_ret rbind] in *.

(** Syntax-directed proof that a computation keeps a projection. *)
Ltac preserves_step :=
  lazymatch goal with
  | |- preserves _ (mbind _ _) => apply preserves_bind; [|intros ?]
  | |- preserves _ (mret _) => apply preserves_ret
  | |- preserves _ get => apply preserves_get
  | |- preserves _ (raise _) => apply preserves_raise
  | |- preserves _ (lift _) => apply preserves_lift
  | |- preserves _ (modify _) => apply preserves_modify; intros ?; reflexivity
  | |- preserves _ (if ?b then _ else _) => destruct b
  | |- preserves _ (match ?x with _ => _ end) => destruct x
  end.

(** Syntax-directed proof that a computation raises only allowed
    exceptions. *)
Ltac raises_only_step :=
  lazymatch goal with
  | |- raises_only _ (mbind _ _) => apply raises_only_bind; [|intros ?]
  | |- raises_only _ (mret _) => apply raises_only_ret
  | |- raises_only _ get => apply raises_only_get
  | |- raises_only _ (modify _) => apply raises_only_modify
  | |- raises_only _ (raise _) => apply raises_only_raise
  | |- raises_only _ (lift _) => apply raises_only_lift
  | |- raises_only _ (if ?b then _ else _) => destruct b
  | |- raises_only _ (match ?x with _ => _ end) => destruct x
  end.

(** ** Facts about the tensor helpers *)

Lemma argmax_from_correct (l pre : list R) (best : R) (besti : nat) :
  pre !! besti = Some best ->
  (forall j x, pre !! j = Some x -> (x <= best)%R) ->
  (forall j x, (j < besti)%nat -> pre !! j = Some x -> (x < best)%R) ->
  exists v,
    (pre ++ l) !! argmax_from best besti (length pre) l = Some v
    /\ (forall j x, (pre ++ l) !! j = Some x -> (x <= v)%R)
    /\ (forall j x, (j < argmax_from best besti (length pre) l)%nat ->
         (pre ++ l) !! j = Some x -> (x < v)%R).
Proof.
  revert pre best besti.
  induction l as [|x l IH]; intros pre best besti Hb Hmax Hfirst; cbn.
  - rewrite app_nil_r. eauto.
  - assert (Hlen : length (pre ++ [x]) = S (length pre))
      by (rewrite length_app; cbn; lia).
    replace (pre ++ x :: l) with ((pre ++ [x]) ++ l)
      by (by rewrite <- app_assoc).
    rewrite <- Hlen.
    destruct (Rlt_dec best x) as [Hlt | Hge].
    + apply IH.
      * rewrite lookup_app_r by lia. by rewrite Nat.sub_diag.
      * intros j y Hj. apply lookup_app_Some in Hj as [Hj | [_ Hj]].
        -- apply Hmax in Hj. lra.
        -- destruct (j - length pre)%nat; cbn in Hj; [|done].
           injection Hj as <-. lra.
      * intros j y Hlt' Hj. rewrite lookup_app_l in Hj by lia.
        apply Hmax in Hj. lra.
    + apply IH.
      * apply lookup_app_l_Some. done.
      * intros j y Hj. apply lookup_app_Some in Hj as [Hj | [_ Hj]].
        -- by eapply Hmax.
        -- destruct (j - length pre)%nat; cbn in Hj; [|done].
           injection Hj as <-. lra.
      * intros j y Hlt' Hj.
        assert (besti < length pre)%nat by (by eapply lookup_lt_Some).
        rewrite lookup_app_l in Hj by lia. by eapply Hfirst.
Qed.

Lemma argmax_correct (row : list R) (a : Z) :
  argmax row = Ok a -> first_argmax row a.
Proof.
  destruct row as [|x l]; cbn; [done|]. intros [= <-].
  destruct (argmax_from_correct l [x] x 0) as (v & Hv & Hmax & Hfirst).
  - done.
  - intros [|j] y; cbn; [intros [= <-]; lra | done].
  - intros; lia.
  - exists (argmax_from x 0 1 l), v. done.
Qed.

Lemma argmax_total (row : list R) :
  row <> [] -> exists a, argmax row = Ok a.
Proof. destruct row; [done|]. cbn. eauto. Qed.

Lemma to_tensor_Ok (rows t : list (list R)) :
  to_tensor rows = Ok t -> t = rows.
Proof.
  destruct rows as [|r0 rest]; cbn; [congruence|].
  destruct (forallb _ _); congruence.
Qed.

Lemma to_tensor_uniform (rows : list (list R)) (n : nat) :
  Forall (fun r => length r = n) rows -> to_tensor rows = Ok rows.
Proof.
  destruct rows as [|r0 rest]; cbn; [done|].
  intros Hall. apply Forall_cons in Hall as [H0 Hrest].
  replace (forallb _ rest) with true; [done|].
  symmetry. apply forallb_forall. intros r Hr.
  rewrite Forall_forall in Hrest. apply Nat.eqb_eq.
  rewrite H0. apply Hrest. by apply list_elem_of_In.
Qed.

Lemma to_tensor_Err (rows : list (list R)) (e : exn) :
  to_tensor rows = Err e -> e = ShapeMismatchError.
Proof.
  destruct rows as [|r0 rest]; cbn; [done|].
  destruct (forallb _ _); congruence.
Qed.

Lemma map_lookup {A B} (f : A -> B) (l : list A) (i : nat) :
  map f l !! i = f <$> l !! i.
Proof.
  revert i. induction l as [|x l IH]; intros [|i]; cbn; try done.
Qed.

Lemma rmap_length {A B} (f : A -> result B) (l : list A) (ys : list B) :
  rmap f l = Ok ys -> length ys = length l.
Proof.
  revert ys. induction l as [|x l IH]; intros ys; cbn.
  - by intros [= <-].
  - monad_unfold. destruct (f x); [|done].
    destruct (rmap f l) as [ys'|]; [|done].
    intros [= <-]. cbn. f_equal. by apply IH.
Qed.

Lemma rmap_lookup {A B} (f : A -> result B) (l : list A) (ys : list B) i x :
  rmap f l = Ok ys -> l !! i = Some x ->
  exists y, f x = Ok y /\ ys !! i = Some y.
Proof.
  revert ys i. induction l as [|x' l IH]; intros ys i; cbn; [done|].
  monad_unfold. destruct (f x') as [y'|] eqn:Hfx; [|done].
  destruct (rmap f l) as [ys'|]; [|done].
  intros [= <-]. destruct i as [|i]; cbn.
  - intros [= <-]. eauto.
  - by apply IH.
Qed.

Lemma rmap_total {A B} (f : A -> result B) (l : list A) :
  Forall (fun x => exists y, f x = Ok y) l -> exists ys, rmap f l = Ok ys.
Proof.
  induction 1 as [|x l [y Hy] _ [ys Hys]]; cbn; [eauto|].
  monad_unfold. rewrite Hy, Hys. eauto.
Qed.

Lemma rmap_Err {A B} (f : A -> result B) (l : list A) (e : exn) :
  rmap f l = Err e -> exists x, x ∈ l /\ f x = Err e.
Proof.
  induction l as [|x l IH]; cbn; [done|].
  monad_unfold. destruct (f x) as [y|e'] eqn:Hfx.
  - destruct (rmap f l) as [ys|e'']; [done|].
    intros [= <-]. destruct IH as (x' & Hin & Hx'); [done|].
    exists x'. split; [by right | done].
  - intros [= <-]. exists x. split; [by left | done].
Qed.

Lemma gather_Err (values : list (list R)) (a : list Z) (e : exn) :
  gather values a = Err e -> e = ShapeMismatchError.
Proof.
  intros Hg. apply rmap_Err in Hg as ([row i] & _ & Hg).
  destruct (_ && _); congruence.
Qed.

Lemma row_max_Err (rows : list (list R)) (e : exn) :
  rmap row_max rows = Err e -> e = ShapeMismatchError.
Proof.
  intros Hm. apply rmap_Err in Hm as (row & _ & Hm).
  destruct row; cbn in Hm; congruence.
Qed.

Lemma zip_map_map {A B C} (f : A -> B) (g : A -> C) (l : list A) :
  zip (map f l) (map g l) = map (fun x => (f x, g x)) l.
Proof. induction l as [|x l IH]; cbn; [done | by rewrite IH]. Qed.

Lemma Forall_map_iff {A B} (f : A -> B) (P : B -> Prop) (l : list A) :
  Forall P (map f l) <-> Forall (fun x => P (f x)) l.
Proof.
  induction l as [|x l IH]; cbn; [by split; constructor|].
  rewrite !Forall_cons, IH. done.
Qed.

Lemma forallb_map_true {A B} (f : A -> B) (p : B -> bool) (l : list A) :
  Forall (fun x => p (f x) = true) l -> forallb p (map f l) = true.
Proof.
  induction 1 as [|x l Hx _ IH]; cbn; [done|]. by rewrite Hx, IH.
Qed.


Lemma fold_left_Rmax_is_max (l : list R) (x : R) :
  is_max (x :: l) (fold_left Rmax l x).
Proof.
  revert x. induction l as [|y l IH]; intros x; cbn.
  - split; [by left|]. intros z Hz. apply list_elem_of_singleton in Hz. lra.
  - destruct (IH (Rmax x y)) as [Hin Hle]. split.
    + apply elem_of_cons in Hin as [Hin | Hin]; [|by do 2 right].
      rewrite Hin. unfold Rmax. destruct (Rle_dec x y); [right; left | left]; done.
    + intros z Hz.
      assert (Hxy : (x <= Rmax x y)%R) by apply Rmax_l.
      assert (Hyx : (y <= Rmax x y)%R) by apply Rmax_r.
      assert (Hm : (Rmax x y <= fold_left Rmax l (Rmax x y))%R)
        by (apply Hle; by left).
      apply elem_of_cons in Hz as [-> | Hz]; [lra|].
      apply elem_of_cons in Hz as [-> | Hz]; [lra|].
      apply Hle. by right.
Qed.

Lemma row_max_is_max (row : list R) (m : R) :
  row_max row = Ok m -> is_max row m.
Proof.
  destruct row as [|x l]; cbn; [done|]. intros [= <-].
  apply fold_left_Rmax_is_max.
Qed.

Lemma td_target_length (g : R) (r mask m : list R) :
  length mask = length r -> length m = length r ->
  length (td_target g r mask m) = length r.
Proof.
  intros H1 H2. unfold td_target, vadd, vmul, vscale, scalar_sub.
  rewrite !length_zip_with, !length_map. lia.
Qed.

Lemma td_target_lookup (g : R) (r mask m : list R) i ri ki mi :
  r !! i = Some ri -> mask !! i = Some ki -> m !! i = Some mi ->
  td_target g r mask m !! i = Some (ri + (1 - ki) * g * mi)%R.
Proof.
  intros Hr Hk Hm. unfold td_target, vadd, vmul, vscale, scalar_sub.
  rewrite !lookup_zip_with, !map_lookup, Hr, Hk, Hm. done.
Qed.

(** ** Loops: what every pass keeps, and counting *)

Section Loops.
Context {S : Type}.

Lemma preserves_for_each {X A B} (f : S -> X) (body : A -> B -> M S B)
    (l : list A) :
  (forall x acc, preserves f (body x acc)) ->
  forall acc, preserves f (for_each body l acc).
Proof.
  intros Hbody. induction l as [|x l IH]; intros acc; cbn [for_each].
  - apply preserves_ret.
  - apply preserves_bind; [apply Hbody | intros acc'; apply IH].
Qed.

(** A property of the store that every pass keeps in both outcomes holds
    after the loop in both outcomes. *)
Lemma wp_for_each_always {A B} (body : A -> B -> M S B) (P : S -> Prop)
    (l : list A) :
  (forall x acc s, P s -> wp (body x acc) (fun _ => P) (fun _ => P) s) ->
  forall acc s, P s -> wp (for_each body l acc) (fun _ => P) (fun _ => P) s.
Proof.
  intros Hbody acc s HP.
  apply (wp_for_each body (fun _ => P) (fun _ => P) l); [|done].
  intros x acc' s' _. apply Hbody.
Qed.

(** A counter that every pass leaves or increments, in both outcomes, has
    grown by at most the number of passes. *)
Lemma wp_for_each_count {A B} (body : A -> B -> M S B) (m : S -> Z)
    (l : list A) :
  (forall x acc s,
     wp (body x acc) (fun _ s' => m s <= m s' <= m s + 1)
        (fun _ s' => m s <= m s' <= m s + 1) s) ->
  forall acc s,
    wp (for_each body l acc)
       (fun _ s' => m s <= m s' <= m s + Z.of_nat (length l))
       (fun _ s' => m s <= m s' <= m s + Z.of_nat (length l)) s.
Proof.
  intros Hbody. induction l as [|x l IH]; intros acc s; cbn [for_each].
  - apply wp_ret. cbn. lia.
  - apply wp_bind. eapply wp_mono; [apply Hbody | |].
    + intros acc' s' Hs'. cbn beta in Hs' |- *.
      eapply wp_mono; [apply IH | |]; cbn beta; intros; cbn [length]; lia.
    + cbn beta. intros; cbn [length]; lia.
Qed.

Lemma wp_always_of_preserves {X A} (f : S -> X) (P : X -> Prop)
    (c : M S A) (s : S) :
  preserves f c -> P (f s) ->
  wp c (fun _ s' => P (f s')) (fun _ s' => P (f s')) s.
Proof.
  intros Hc HP. specialize (Hc s). unfold wp.
  destruct (c s); cbn in Hc; by rewrite Hc.
Qed.

Lemma wp_always_final {A} (c : M S A) (P : S -> Prop) (s : S) :
  wp c (fun _ => P) (fun _ => P) s -> P (final (c s)).
Proof. unfold wp, final. by destruct (c s). Qed.

(** Sequencing a computation that keeps a counter with one that leaves or
    increments it, in either order. *)
Lemma wp_keep_then_step {A B} (m : S -> Z) (c : M S A) (k : A -> M S B) :
  preserves m c ->
  (forall a s, wp (k a) (fun _ s' => m s <= m s' <= m s + 1)
                 (fun _ s' => m s <= m s' <= m s + 1) s) ->
  forall s, wp (c ≫= k) (fun _ s' => m s <= m s' <= m s + 1)
              (fun _ s' => m s <= m s' <= m s + 1) s.
Proof.
  intros Hc Hk s. apply wp_bind.
  eapply wp_mono; [apply (preserves_wp m c s Hc) | |].
  - intros a s' Hs'. cbn beta in Hs' |- *. rewrite <- Hs'. apply Hk.
  - intros e s' Hs'. cbn beta in Hs' |- *. lia.
Qed.

Lemma wp_step_then_keep {A B} (m : S -> Z) (c : M S A) (k : A -> M S B) :
  (forall s, wp c (fun _ s' => m s <= m s' <= m s + 1)
               (fun _ s' => m s <= m s' <= m s + 1) s) ->
  (forall a, preserves m (k a)) ->
  forall s, wp (c ≫= k) (fun _ s' => m s <= m s' <= m s + 1)
              (fun _ s' => m s <= m s' <= m s + 1) s.
Proof.
  intros Hc Hk s. apply wp_bind.
  eapply wp_mono; [apply Hc | |].
  - intros a s' Hs'. cbn beta in Hs' |- *.
    eapply wp_mono; [apply (preserves_wp m (k a) s' (Hk a)) | |];
      cbn beta; intros; lia.
  - intros e s' Hs'. cbn beta in Hs' |- *. lia.
Qed.

Lemma wp_keep_counts {A} (m : S -> Z) (c : M S A) :
  preserves m c ->
  forall s, wp c (fun _ s' => m s <= m s' <= m s + 1)
              (fun _ s' => m s <= m s' <= m s + 1) s.
Proof.
  intros Hc s. eapply wp_mono; [apply (preserves_wp m c s Hc) | |];
    cbn beta; intros; lia.
Qed.

Lemma preserves_compose {X Y A} (f : S -> X) (g : X -> Y) (c : M S A) :
  preserves f c -> preserves (fun s => g (f s)) c.
Proof. intros Hc s. by rewrite Hc. Qed.

End Loops.

(** ** Theorems *)

Section Theory.

Context {Params OptState EnvState Rng Arch : Type} `{EqDecision Arch}.
Variable obs_dim : nat.
Variable net : Params -> list R -> list R.
Variable adam_step :
  Params -> OptState -> list (list R) -> list Z -> list R -> Params * OptState.
Variable params_arch : Params -> Arch.
Variable optim_arch : OptState -> Arch.
Variable rand : Rng -> R * Rng.
Variable randint : Rng -> nat * Rng.
Variable env_reset : EnvState -> list R * EnvState.
Variable env_step : Z -> EnvState -> (list R * R * bool * bool) * EnvState.
Variable action_space_sample : EnvState -> Z * EnvState.
Variable q_init : Z -> Params.
Variable adam_init : Params -> R -> OptState.
Variable np_seed : Z -> Rng.
Variable env_seed : Z -> EnvState -> EnvState.

Local Abbreviation World := (@World Params OptState EnvState Rng).
Local Abbreviation epsilon := (@epsilon Params OptState EnvState Rng).
Local Abbreviation greedy_action :=
  (@greedy_action Params OptState EnvState Rng obs_dim net).
Local Abbreviation predict_action :=
  (@predict_action Params OptState EnvState Rng obs_dim net rand
     action_space_sample).
Local Abbreviation save := (@save Params OptState EnvState Rng).
Local Abbreviation load :=
  (@load Params OptState EnvState Rng Arch _ params_arch optim_arch).
Local Abbreviation update_agent :=
  (@update_agent Params OptState EnvState Rng obs_dim net adam_step).
Local Abbreviation update_agent_seq :=
  (@update_agent_seq Params OptState EnvState Rng obs_dim net adam_step).
Local Abbreviation buffer_sample :=
  (@buffer_sample Params OptState EnvState Rng randint).
Local Abbreviation update_if_ready :=
  (@update_if_ready Params OptState EnvState Rng obs_dim net adam_step
     randint).
Local Abbreviation end_episode :=
  (@end_episode Params OptState EnvState Rng env_reset).
Local Abbreviation log_progress :=
  (@log_progress Params OptState EnvState Rng).
Local Abbreviation train_body :=
  (@train_body Params OptState EnvState Rng obs_dim net adam_step rand
     randint env_reset env_step action_space_sample).
Local Abbreviation train :=
  (@train Params OptState EnvState Rng obs_dim net adam_step rand randint
     env_reset env_step action_space_sample).
Local Abbreviation init :=
  (@init Params OptState EnvState Rng q_init adam_init np_seed env_seed).
Local Abbreviation agent_frame := (@agent_frame Params OptState EnvState Rng).
Local Abbreviation after_update := (@after_update Params OptState EnvState Rng).
Local Abbreviation u_target := (@u_target Params OptState EnvState Rng).
Local Abbreviation kept := (@kept Params OptState EnvState Rng).
Local Abbreviation hist := (@hist Params OptState EnvState Rng).
Local Abbreviation logged := (@logged Params OptState EnvState Rng).
Local Abbreviation trace_of :=
  (@trace_of Params OptState EnvState Rng obs_dim net).
Local Abbreviation learner_state :=
  (@learner_state Params OptState EnvState Rng).
Local Abbreviation outside_learner :=
  (@outside_learner Params OptState EnvState Rng).
Local Abbreviation outside_checkpoint :=
  (@outside_checkpoint Params OptState EnvState Rng).
Local Abbreviation malformed :=
  (@malformed Params OptState EnvState Rng obs_dim net).
Local Abbreviation sample_ok :=
  (@sample_ok Params OptState EnvState Rng obs_dim net).
Local Abbreviation env_ok :=
  (env_ok obs_dim env_reset env_step action_space_sample).
Local Abbreviation net_ok := (net_ok obs_dim net).
Local Abbreviation stored_ok := (stored_ok obs_dim).
Local Abbreviation train_ready :=
  (@train_ready Params OptState EnvState Rng obs_dim).

(** *** The exploration schedule *)

Lemma epsilon_run (w : World) :
  epsilon_decay (hp w) <> 0 ->
  epsilon w =
    Ret (epsilon_spec (epsilon_start (hp w)) (epsilon_final (hp w))
           (IZR (epsilon_decay (hp w))) (IZR (total_steps w))) w.
Proof.
  intros Hd. unfold epsilon, epsilon_spec, py_truediv. monad_unfold.
  apply Z.eqb_neq in Hd. rewrite Hd.
  by rewrite opp_IZR.
Qed.





(** *** Action selection *)

Lemma agent_frame_refl w : agent_frame w w.
Proof. by repeat split. Qed.

Lemma agent_frame_trans w1 w2 w3 :
  agent_frame w1 w2 -> agent_frame w2 w3 -> agent_frame w1 w3.
Proof. unfold agent_frame. intros; destruct_and!; repeat split; congruence. Qed.

Lemma greedy_action_pure (state : list R) (w : World) :
  final (greedy_action state w) = w.
Proof.
  unfold greedy_action. monad_unfold.
  destruct (forward _ _ _ _) as [qv|]; [|done].
  by destruct (match rmap argmax qv with Ok a => item a | Err e => Err e end).
Qed.

Lemma predict_action_agent_frame (state : list R) (evaluate : bool) w :
  agent_frame w (final (predict_action state evaluate w)).
Proof.
  unfold predict_action. destruct evaluate.
  { rewrite greedy_action_pure. apply agent_frame_refl. }
  unfold np_random_rand, epsilon, env_action_space_sample. monad_unfold.
  destruct (rand (np_random w)) as [u g]. cbn.
  destruct (py_truediv _ _); [|by repeat split].
  destruct (Rlt_dec _ _).
  - destruct (action_space_sample _). by repeat split.
  - eapply agent_frame_trans; [|rewrite greedy_action_pure; apply agent_frame_refl].
    by repeat split.
Qed.


Lemma forward_one (p : Params) (state : list R) :
  length state = obs_dim -> forward obs_dim net p [state] = Ok [net p state].
Proof.
  intros Hlen. unfold forward. cbn.
  apply Nat.eqb_eq in Hlen. by rewrite Hlen.
Qed.

Lemma greedy_action_params (state : list R) (w w2 : World) :
  q w2 = q w ->
  result_of (greedy_action state w2) = result_of (greedy_action state w).
Proof.
  intros Hq. unfold greedy_action. monad_unfold. rewrite Hq.
  destruct (forward _ _ _ _) as [qv|]; [|done].
  by destruct (match rmap argmax qv with Ok a => item a | Err e => Err e end).
Qed.

(** C5: greedy selection depends on the store only through the online
    parameters and does not change the store, so a second call returns
    what the first returned; an action it returns is the lowest index of
    a maximal value estimate, and it does return one for a state of the
    right dimension when the approximator has outputs. *)
Theorem greedy_deterministic (state : list R) (w w2 : World) :
  q w2 = q w ->
  result_of (predict_action state true w2)
    = result_of (predict_action state true w)
  /\ final (predict_action state true w) = w
  /\ result_of (predict_action state true (final (predict_action state true w)))
      = result_of (predict_action state true w)
  /\ (forall a w', predict_action state true w = Ret a w' ->
       first_argmax (net (q w) state) a)
  /\ (length state = obs_dim -> net (q w) state <> [] ->
      exists a, predict_action state true w = Ret a w).
Proof.
  intros Hq. cbn [predict_action].
  split; [by apply greedy_action_params|].
  split; [apply greedy_action_pure|].
  split; [by rewrite greedy_action_pure|].
  split.
  - intros a w'. unfold greedy_action, forward. monad_unfold. cbn.
    destruct (length state =? obs_dim)%nat; [|done]. cbn.
    destruct (argmax (net (q w) state)) as [i|] eqn:Hi; [|done].
    cbn. intros [= <- _]. by apply argmax_correct.
  - intros Hlen Hne. unfold greedy_action. monad_unfold.
    rewrite forward_one by done. cbn.
    destruct (argmax_total _ Hne) as [a ->]. cbn. eauto.
Qed.

(** *** Persistence *)

Lemma save_run (path : string) (w : World) :
  save path w =
    Ret tt (set_disk (<[path := {| ck_parameters := q w;
                                   ck_optimizer := optimizer w |}]> (disk w)) w).
Proof. done. Qed.


(** *** The learner step *)

Lemma forward_Err (p : Params) (batch : list (list R)) (e : exn) :
  forward obs_dim net p batch = Err e -> e = ShapeMismatchError.
Proof. unfold forward. destruct (forallb _ _); congruence. Qed.

Lemma unzip_batch_nonempty (b : list Transition) :
  b <> [] ->
  unzip_batch b =
    Ok (map t_state b, map t_action b, map t_reward b,
        map t_next_state b, map t_done b).
Proof. by destruct b. Qed.

Lemma update_agent_outcome (b : list Transition) (w : World) :
  match update_agent b w with
  | Ret loss w' =>
      exists u, trace_of b w u
        /\ target_update_freq (hp w) <> 0
        /\ loss = mse_loss (u_pred u) (u_target b w u)
        /\ w' = after_update w
              (adam_step (q w) (optimizer w) (map t_state b)
                 (map t_action b) (u_target b w u)).1
              (adam_step (q w) (optimizer w) (map t_state b)
                 (map t_action b) (u_target b w u)).2
  | Raise e w' =>
      (e = ValueError /\ b = [] /\ w' = w)
      \/ (e = ShapeMismatchError /\ w' = w)
      \/ (e = ZeroDivisionError /\ target_update_freq (hp w) = 0
          /\ exists u, trace_of b w u
             /\ w' = set_optimizer
                 (adam_step (q w) (optimizer w) (map t_state b)
                    (map t_action b) (u_target b w u)).2
                 (set_q (adam_step (q w) (optimizer w) (map t_state b)
                    (map t_action b) (u_target b w u)).1 w))
  end.
Proof.
  unfold update_agent. monad_unfold.
  destruct (decide (b = [])) as [-> | Hne]; [by left|].
  rewrite unzip_batch_nonempty by done.
  destruct (to_tensor (map t_state b)) as [s|e] eqn:Hs;
    [apply to_tensor_Ok in Hs as Hs'; subst s
    |apply to_tensor_Err in Hs as ->; by (right; left)].
  destruct (to_tensor (map t_next_state b)) as [s_next|e] eqn:Hn;
    [apply to_tensor_Ok in Hn as Hn'; subst s_next
    |apply to_tensor_Err in Hn as ->; by (right; left)].
  destruct (forward obs_dim net (q w) _) as [q_values|e] eqn:Hq.
  2:{ apply forward_Err in Hq as ->. by (right; left). }
  destruct (gather q_values _) as [pred|e] eqn:Hg.
  2:{ apply gather_Err in Hg as ->. by (right; left). }
  destruct (forward obs_dim net (target_q w) _) as [next_q|e] eqn:Hnq.
  2:{ apply forward_Err in Hnq as ->. by (right; left). }
  destruct (rmap row_max next_q) as [max_next_q|e] eqn:Hm.
  2:{ apply row_max_Err in Hm as ->. by (right; left). }
  set (u := {| u_q_values := q_values; u_pred := pred;
               u_next_q := next_q; u_max_next_q := max_next_q |}).
  assert (Hu : trace_of b w u) by done.
  change (td_target _ _ _ max_next_q) with (u_target b w u).
  destruct (adam_step _ _ _ _ _) as [q' opt'] eqn:Hstep.
  unfold py_mod. cbn [total_steps hp set_optimizer set_q].
  destruct (target_update_freq (hp w) =? 0) eqn:Hf.
  { apply Z.eqb_eq in Hf. right; right.
    do 2 (split; [done|]). exists u. by rewrite Hstep. }
  apply Z.eqb_neq in Hf.
  destruct (total_steps w mod target_update_freq (hp w) =? 0) eqn:Hmod;
    exists u; rewrite Hstep; unfold after_update; by rewrite Hmod.
Qed.

Lemma trace_exists (b : list Transition) (w : World) :
  b <> [] -> Forall (sample_ok w) b -> exists u, trace_of b w u.
Proof.
  intros Hne Hok.
  assert (Hs : Forall (fun t => length (t_state t) = obs_dim) b)
    by (eapply Forall_impl; [exact Hok | by intros t (? & _)]).
  assert (Hn : Forall (fun t => length (t_next_state t) = obs_dim) b)
    by (eapply Forall_impl; [exact Hok | by intros t (_ & ? & _)]).
  assert (Hfs : forward obs_dim net (q w) (map t_state b)
                = Ok (map (net (q w)) (map t_state b))).
  { unfold forward. rewrite forallb_map_true; [done|].
    eapply Forall_impl; [exact Hs|]. intros t Ht. by apply Nat.eqb_eq. }
  assert (Hfn : forward obs_dim net (target_q w) (map t_next_state b)
                = Ok (map (net (target_q w)) (map t_next_state b))).
  { unfold forward. rewrite forallb_map_true; [done|].
    eapply Forall_impl; [exact Hn|]. intros t Ht. by apply Nat.eqb_eq. }
  destruct (rmap_total
    (fun '(row, i) =>
       if (0 <=? i) && (i <? Z.of_nat (length row))
       then Ok (nth (Z.to_nat i) row 0%R) else Err ShapeMismatchError)
    (zip (map (net (q w)) (map t_state b)) (map t_action b)))
    as [pred Hpred].
  { rewrite map_map, zip_map_map. apply Forall_map_iff.
    eapply Forall_impl; [exact Hok|]. intros t (_ & _ & Ha & _). cbn.
    replace (0 <=? t_action t) with true by (symmetry; lia).
    replace (t_action t <? _) with true by (symmetry; lia).
    cbn. eauto. }
  destruct (rmap_total row_max (map (net (target_q w)) (map t_next_state b)))
    as [mx Hmx].
  { rewrite map_map. apply Forall_map_iff.
    eapply Forall_impl; [exact Hok|]. intros t (_ & _ & _ & Hrow).
    destruct (net _ _); [done|]. cbn. eauto. }
  exists {| u_q_values := map (net (q w)) (map t_state b); u_pred := pred;
            u_next_q := map (net (target_q w)) (map t_next_state b);
            u_max_next_q := mx |}.
  repeat split; try done.
  - by eapply to_tensor_uniform, Forall_map_iff.
  - by eapply to_tensor_uniform, Forall_map_iff.
Qed.

Lemma update_agent_run (b : list Transition) (w : World) (u : UpdateTrace) :
  trace_of b w u ->
  let step := adam_step (q w) (optimizer w) (map t_state b)
                (map t_action b) (u_target b w u) in
  update_agent b w =
    if target_update_freq (hp w) =? 0
    then Raise ZeroDivisionError (set_optimizer step.2 (set_q step.1 w))
    else Ret (mse_loss (u_pred u) (u_target b w u))
             (after_update w step.1 step.2).
Proof.
  intros (Hne & Hs & Hn & Hq & Hg & Hnq & Hm) step.
  unfold update_agent. monad_unfold.
  rewrite unzip_batch_nonempty by done.
  rewrite Hs, Hn, Hq, Hg, Hnq, Hm.
  change (td_target _ _ _ (u_max_next_q u)) with (u_target b w u).
  fold step. destruct step as [q' opt']. cbn [fst snd].
  unfold py_mod. cbn [total_steps hp set_optimizer set_q].
  destruct (target_update_freq (hp w) =? 0); [done|].
  unfold after_update.
  by destruct (total_steps w mod target_update_freq (hp w) =? 0).
Qed.

Lemma update_agent_total (b : list Transition) (w : World) :
  b <> [] -> target_update_freq (hp w) <> 0 -> Forall (sample_ok w) b ->
  exists loss w', update_agent b w = Ret loss w'.
Proof.
  intros Hne Hf Hok. destruct (trace_exists b w) as [u Hu]; [done..|].
  rewrite (update_agent_run b w u Hu).
  apply Z.eqb_neq in Hf. rewrite Hf. eauto.
Qed.


Lemma update_agent_Ret (b : list Transition) (w : World) loss w' :
  update_agent b w = Ret loss w' ->
  exists u, trace_of b w u
    /\ target_update_freq (hp w) <> 0
    /\ loss = mse_loss (u_pred u) (u_target b w u)
    /\ w' = after_update w
          (adam_step (q w) (optimizer w) (map t_state b)
             (map t_action b) (u_target b w u)).1
          (adam_step (q w) (optimizer w) (map t_state b)
             (map t_action b) (u_target b w u)).2.
Proof.
  intros Hrun. pose proof (update_agent_outcome b w) as Hout.
  by rewrite Hrun in Hout.
Qed.

Lemma after_update_fields (w : World) (q' : Params) (opt' : OptState) :
  let w' := after_update w q' opt' in
  q w' = q' /\ optimizer w' = opt'
  /\ total_steps w' = total_steps w + 1
  /\ target_q w' =
      (if total_steps w mod target_update_freq (hp w) =? 0
       then q' else target_q w)
  /\ hp w' = hp w /\ buffer w' = buffer w /\ env w' = env w
  /\ np_random w' = np_random w /\ disk w' = disk w
  /\ frame_history w' = frame_history w
  /\ mean_reward_history w' = mean_reward_history w.
Proof.
  unfold after_update.
  by destruct (total_steps w mod target_update_freq (hp w) =? 0).
Qed.

Lemma forward_Ok (p : Params) (batch out : list (list R)) :
  forward obs_dim net p batch = Ok out -> out = map (net p) batch.
Proof. unfold forward. destruct (forallb _ _); congruence. Qed.

Lemma update_agent_target (b : list Transition) (w : World) loss w' :
  update_agent b w = Ret loss w' ->
  exists pred target,
    loss = mse_loss pred target
    /\ adam_step (q w) (optimizer w) (map t_state b) (map t_action b) target
       = (q w', optimizer w')
    /\ length target = length b
    /\ (forall i t, b !! i = Some t ->
         exists m, is_max (net (target_q w) (t_next_state t)) m
           /\ target !! i =
              Some (t_reward t + (1 - b2r (t_done t)) * gamma (hp w) * m)%R).
Proof.
  intros Hrun.
  apply update_agent_Ret in Hrun
    as (u & (Hne & _ & _ & _ & _ & Hnq & Hm) & Hf & -> & ->).
  apply forward_Ok in Hnq.
  pose proof (rmap_length _ _ _ Hm) as Hlen.
  rewrite Hnq, !length_map in Hlen.
  exists (u_pred u), (u_target b w u).
  destruct (after_update_fields w
    (adam_step (q w) (optimizer w) (map t_state b) (map t_action b)
       (u_target b w u)).1
    (adam_step (q w) (optimizer w) (map t_state b) (map t_action b)
       (u_target b w u)).2) as (-> & -> & _).
  split; [done|]. split; [by destruct (adam_step _ _ _ _ _)|].
  split.
  { unfold u_target. rewrite td_target_length; by rewrite !length_map. }
  intros i t Hi.
  destruct (rmap_lookup row_max (u_next_q u) (u_max_next_q u) i
              (net (target_q w) (t_next_state t))) as (m & Hrow & Hmi).
  - done.
  - by rewrite Hnq, !map_lookup, Hi.
  - exists m. split; [by apply row_max_is_max|].
    apply td_target_lookup; [| |done]; by rewrite !map_lookup, Hi.
Qed.

(** C2: a learner step that returns has regressed the online predictions
    on a target whose entry for sample [i] is
    [reward_i + (1 - done_i) * gamma * m_i], with [m_i] the largest value
    the target approximator gives to [next_state_i]; when every sample is
    terminal the target is the vector of rewards. *)
Theorem td_target_formula (b : list Transition) (w : World) loss w' :
  update_agent b w = Ret loss w' ->
  exists pred target,
    loss = mse_loss pred target
    /\ adam_step (q w) (optimizer w) (map t_state b) (map t_action b) target
       = (q w', optimizer w')
    /\ length target = length b
    /\ (forall i t, b !! i = Some t ->
         exists m, is_max (net (target_q w) (t_next_state t)) m
           /\ target !! i =
              Some (t_reward t + (1 - b2r (t_done t)) * gamma (hp w) * m)%R)
    /\ (Forall (fun t => t_done t = true) b ->
        forall i t, b !! i = Some t -> target !! i = Some (t_reward t))
    /\ (Forall (fun t => t_done t = true) b -> target = map t_reward b).
Proof.
  intros Hrun.
  destruct (update_agent_target b w loss w' Hrun)
    as (pred & target & Hloss & Hstep & Hlen & Hsample).
  exists pred, target. do 4 (split; [done|]).
  assert (Hterminal : Forall (fun t => t_done t = true) b ->
    forall i t, b !! i = Some t -> target !! i = Some (t_reward t)).
  { intros Hdone i t Hi. destruct (Hsample i t Hi) as (m & _ & ->).
    rewrite Forall_lookup in Hdone. rewrite (Hdone i t Hi).
    cbn. f_equal. ring. }
  split; [exact Hterminal|].
  intros Hdone. apply list_eq. intros i. rewrite map_lookup.
  destruct (b !! i) as [t|] eqn:Hi.
  - by rewrite (Hterminal Hdone i t Hi).
  - apply lookup_ge_None. rewrite Hlen. by apply lookup_ge_None.
Qed.

Lemma update_agent_step (b : list Transition) (w : World) loss w' :
  update_agent b w = Ret loss w' ->
  total_steps w' = total_steps w + 1
  /\ target_q w' =
      (if total_steps w mod target_update_freq (hp w) =? 0
       then q w' else target_q w)
  /\ hp w' = hp w.
Proof.
  intros Hrun. apply update_agent_Ret in Hrun as (u & _ & _ & _ & ->).
  edestruct after_update_fields as (-> & _ & -> & -> & -> & _). done.
Qed.

Lemma update_agent_seq_frozen (bs : list (list Transition)) (w : World) ls w' :
  update_agent_seq bs w = Ret ls w' ->
  (forall k, total_steps w <= k < total_steps w + Z.of_nat (length bs) ->
             k mod target_update_freq (hp w) <> 0) ->
  target_q w' = target_q w
  /\ total_steps w' = total_steps w + Z.of_nat (length bs)
  /\ hp w' = hp w.
Proof.
  revert w ls. induction bs as [|b bs IH]; intros w ls; cbn.
  - intros [= <- <-] _. repeat split. lia.
  - monad_unfold. destruct (update_agent b w) as [l w1|] eqn:Hb; [|done].
    destruct (update_agent_seq bs w1) as [ls' w2|] eqn:Hbs; [|done].
    intros [= <- <-] Hk.
    apply update_agent_step in Hb as (Hts & Htq & Hhp).
    destruct (IH _ _ Hbs) as (-> & -> & ->).
    { intros k Hk'. rewrite Hhp. apply Hk. lia. }
    rewrite Htq, Hts, Hhp.
    replace (_ =? 0) with false; [repeat split; lia|].
    symmetry. apply Z.eqb_neq, Hk. lia.
Qed.

(** C1, as the code has it: a learner step tests the step counter before
    incrementing it, so the hard copy happens on the calls that find the
    counter at a multiple of [target_update_freq], every other call
    leaves the target parameters untouched, and the counter grows by one
    per call.  From a new agent the first call copies; after exactly
    [target_update_freq] calls the target still holds the online
    parameters of the end of the first call, and the next call copies
    again. *)
Theorem target_sync_timing (b : list Transition)
    (bs : list (list Transition)) (w0 w1 w2 : World) l1 ls :
  total_steps w0 = 0 ->
  update_agent b w0 = Ret l1 w1 ->
  update_agent_seq bs w1 = Ret ls w2 ->
  Z.of_nat (length bs) = target_update_freq (hp w0) - 1 ->
  (forall b' (w : World) l w', update_agent b' w = Ret l w' ->
     total_steps w' = total_steps w + 1
     /\ (total_steps w mod target_update_freq (hp w) = 0 ->
         target_q w' = q w')
     /\ (total_steps w mod target_update_freq (hp w) <> 0 ->
         target_q w' = target_q w))
  /\ target_q w1 = q w1
  /\ target_q w2 = q w1
  /\ total_steps w2 = target_update_freq (hp w0)
  /\ (forall b' l w3, update_agent b' w2 = Ret l w3 -> target_q w3 = q w3).
Proof.
  intros H0 Hb Hbs Hlen.
  assert (Hgen : forall b' (w : World) l w', update_agent b' w = Ret l w' ->
     total_steps w' = total_steps w + 1
     /\ (total_steps w mod target_update_freq (hp w) = 0 ->
         target_q w' = q w')
     /\ (total_steps w mod target_update_freq (hp w) <> 0 ->
         target_q w' = target_q w)).
  { intros b' w l w' Hrun.
    apply update_agent_step in Hrun as (-> & -> & _).
    split; [done|].
    split; intros Hmod.
    - by rewrite Hmod.
    - apply Z.eqb_neq in Hmod. by rewrite Hmod. }
  split; [exact Hgen|].
  pose proof (update_agent_step _ _ _ _ Hb) as (Hts1 & _ & Hhp1).
  destruct (Hgen _ _ _ _ Hb) as (_ & Hsync1 & _).
  assert (Htq1 : target_q w1 = q w1).
  { apply Hsync1. rewrite H0. apply Z.mod_0_l. lia. }
  destruct (update_agent_seq_frozen _ _ _ _ Hbs) as (Htq2 & Hts2 & Hhp2).
  { intros k Hk. rewrite Hhp1. rewrite Z.mod_small; lia. }
  split; [done|]. split; [congruence|].
  split; [lia|].
  intros b' l w3 Hrun. apply Hgen in Hrun as (_ & Hsync & _).
  apply Hsync. rewrite Hts2, Hhp2, Hhp1.
  replace (total_steps w1 + Z.of_nat (length bs))
    with (target_update_freq (hp w0)) by lia.
  apply Z_mod_same_full.
Qed.


(** *** The training loop *)

Lemma kept_inv (w w' : World) :
  kept w' = kept w ->
  hp w' = hp w /\ frame_history w' = frame_history w
  /\ mean_reward_history w' = mean_reward_history w
  /\ buffer w' = buffer w.
Proof. unfold kept. intros Hk. repeat split; congruence. Qed.

Lemma predict_action_kept (state : list R) (evaluate : bool) :
  preserves kept (predict_action state evaluate).
Proof.
  intros w. destruct (predict_action_agent_frame state evaluate w).
  destruct_and!. unfold kept. congruence.
Qed.

Lemma env_do_step_kept (a : Z) :
  preserves kept (env_do_step env_step a : M World _).
Proof. intros w. unfold env_do_step. by destruct (env_step a (env w)). Qed.

Lemma env_do_reset_kept : preserves kept (env_do_reset env_reset : M World _).
Proof. intros w. unfold env_do_reset. by destruct (env_reset (env w)). Qed.

Lemma np_random_randint_kept :
  preserves kept (np_random_randint randint : M World _).
Proof. intros w. unfold np_random_randint. by destruct (randint _). Qed.

Lemma buffer_draw_kept (k : nat) :
  preserves kept (buffer_draw randint k : M World _).
Proof.
  induction k as [|k IH]; cbn [buffer_draw].
  - apply preserves_ret.
  - apply preserves_bind; [apply np_random_randint_kept | intros i].
    repeat preserves_step. apply IH.
Qed.

Lemma buffer_sample_kept (n : Z) : preserves kept (buffer_sample n).
Proof.
  unfold buffer_sample. repeat preserves_step. apply buffer_draw_kept.
Qed.

Lemma update_agent_kept (b : list Transition) : preserves kept (update_agent b).
Proof.
  intros w. pose proof (update_agent_outcome b w) as Hout.
  destruct (update_agent b w) as [loss w'|e w']; cbn.
  - destruct Hout as (u & _ & _ & _ & ->).
    edestruct after_update_fields as (_ & _ & _ & _ & Hhp & Hb & _ & _ & _ & Hf & Hm).
    unfold kept. by rewrite Hhp, Hb, Hf, Hm.
  - by destruct Hout as [(_ & _ & ->) | [(_ & ->) | (_ & _ & u & _ & ->)]].
Qed.

Lemma update_if_ready_kept : preserves kept update_if_ready.
Proof.
  unfold update_if_ready. repeat preserves_step.
  - apply buffer_sample_kept.
  - apply update_agent_kept.
Qed.

Lemma preserves_kept_buffer {A} (c : M World A) :
  preserves kept c -> preserves buffer c.
Proof. intros Hc w. specialize (Hc w). unfold kept in Hc. congruence. Qed.

Lemma end_episode_kept ended ns r rr :
  preserves kept (end_episode ended ns r rr).
Proof.
  unfold end_episode. destruct ended; [|apply preserves_ret].
  apply preserves_bind; [apply env_do_reset_kept | intros ?; apply preserves_ret].
Qed.

Lemma log_progress_buffer ei frame rr :
  preserves buffer (log_progress ei frame rr).
Proof. unfold log_progress. repeat preserves_step. Qed.

Lemma train_body_buffer (ei frame : Z) (loc : Locals) (w : World) :
  match predict_action (state loc) false w with
  | Raise e w1 => train_body ei frame loc w = Raise e w1
  | Ret action w1 =>
      buffer (final (train_body ei frame loc w)) =
        buffer_add (stored loc action (env_step action (env w1)).1) (buffer w)
  end.
Proof.
  unfold train_body. rewrite mbind_run.
  pose proof (predict_action_kept (state loc) false w) as Hk.
  destruct (predict_action (state loc) false w) as [action w1|e w1]; [|done].
  cbn in Hk. rewrite mbind_run. unfold env_do_step at 1.
  destruct (env_step action (env w1)) as [[[[ns r] d] tr] e']. cbn [fst stored].
  rewrite mbind_run. cbn [get]. rewrite mbind_run. cbn [modify].
  match goal with
  | |- buffer (final (?c ?s)) = _ =>
      assert (Hrest : preserves buffer c); [|rewrite Hrest]
  end.
  { apply preserves_bind; [apply preserves_kept_buffer, update_if_ready_kept|].
    intros _. apply preserves_bind;
      [apply preserves_kept_buffer, end_episode_kept|].
    intros loc'. apply preserves_bind; [apply log_progress_buffer|].
    intros _. apply preserves_ret. }
  cbn. unfold kept in Hk. congruence.
Qed.

(** C10: one pass of the loop stores the transition whose terminal flag
    is [done || truncated] of the environment's answer, and nothing later
    in the pass touches the buffer; a learner step on a batch holding
    such a transition, ended by termination or by truncation alone, uses
    its bare reward as the target of that sample. *)
Theorem truncation_stored_as_terminal (ei frame : Z) (loc : Locals)
    (w : World) (b : list Transition) (wb wb' : World) (loss : R) (i : nat)
    (action : Z) (next_state : list R) (reward : R) (done truncated : bool) :
  update_agent b wb = Ret loss wb' ->
  b !! i = Some (stored loc action (next_state, reward, done, truncated)) ->
  done || truncated = true ->
  match predict_action (state loc) false w with
  | Raise e w1 => train_body ei frame loc w = Raise e w1
  | Ret a w1 =>
      let '(ns, r, d, tr, _) := env_step a (env w1) in
      buffer (final (train_body ei frame loc w)) =
        buffer_add {| t_state := state loc; t_action := a; t_reward := r;
                      t_next_state := ns; t_done := d || tr;
                      t_info := tt |} (buffer w)
  end
  /\ t_done (stored loc action (next_state, reward, done, truncated))
     = done || truncated
  /\ exists pred target,
       loss = mse_loss pred target
       /\ adam_step (q wb) (optimizer wb) (map t_state b) (map t_action b)
            target = (q wb', optimizer wb')
       /\ target !! i = Some reward.
Proof.
  intros Hrun Hi Hend. split; [|split; [done|]].
  - pose proof (train_body_buffer ei frame loc w) as Hb.
    destruct (predict_action (state loc) false w) as [a w1|]; [|done].
    by destruct (env_step a (env w1)) as [[[[ns r] d] tr] e'].
  - destruct (update_agent_target _ _ _ _ Hrun)
      as (pred & target & Hloss & Hstep & _ & Hsample).
    exists pred, target. split; [done|]. split; [done|].
    destruct (Hsample _ _ Hi) as (m & _ & ->). cbn.
    rewrite Hend. cbn. f_equal. ring.
Qed.

(** **** No insufficient-data error *)

Lemma py_mod_Err a b e : py_mod a b = Err e -> e = ZeroDivisionError.
Proof. unfold py_mod. destruct (b =? 0); congruence. Qed.

Lemma py_truediv_Err a b e : py_truediv a b = Err e -> e = ZeroDivisionError.
Proof. unfold py_truediv. destruct (b =? 0); congruence. Qed.

Lemma greedy_action_raises state :
  raises_only not_insufficient (greedy_action state).
Proof.
  unfold greedy_action. repeat raises_only_step.
  - by intros e ->%forward_Err.
  - intros e. monad_unfold.
    destruct (rmap argmax a0) as [idx|e'] eqn:Hidx.
    + destruct idx as [|x [|]]; cbn; congruence.
    + intros [= <-]. apply rmap_Err in Hidx as (row & _ & Hrow).
      destruct row; cbn in Hrow; congruence.
Qed.

Lemma np_random_rand_raises P :
  raises_only P (np_random_rand rand : M World _).
Proof. intros w. unfold wp, np_random_rand. by destruct (rand _). Qed.

Lemma np_random_randint_raises P :
  raises_only P (np_random_randint randint : M World _).
Proof. intros w. unfold wp, np_random_randint. by destruct (randint _). Qed.

Lemma env_do_step_raises P a :
  raises_only P (env_do_step env_step a : M World _).
Proof. intros w. unfold wp, env_do_step. by destruct (env_step _ _). Qed.

Lemma env_do_reset_raises P :
  raises_only P (env_do_reset env_reset : M World _).
Proof. intros w. unfold wp, env_do_reset. by destruct (env_reset _). Qed.

Lemma env_action_space_sample_raises P :
  raises_only P (env_action_space_sample action_space_sample : M World _).
Proof.
  intros w. unfold wp, env_action_space_sample.
  by destruct (action_space_sample _).
Qed.

Lemma epsilon_raises : raises_only not_insufficient epsilon.
Proof.
  unfold epsilon. repeat raises_only_step. by intros e ->%py_truediv_Err.
Qed.

Lemma predict_action_raises state evaluate :
  raises_only not_insufficient (predict_action state evaluate).
Proof.
  unfold predict_action. destruct evaluate; [apply greedy_action_raises|].
  apply raises_only_bind; [apply np_random_rand_raises | intros u].
  apply raises_only_bind; [apply epsilon_raises | intros eps].
  destruct (Rlt_dec u eps);
    [apply env_action_space_sample_raises | apply greedy_action_raises].
Qed.

Lemma buffer_draw_raises (k : nat) :
  raises_only not_insufficient (buffer_draw randint k : M World _).
Proof.
  induction k as [|k IH]; cbn [buffer_draw].
  - apply raises_only_ret.
  - apply raises_only_bind; [apply np_random_randint_raises | intros i].
    repeat raises_only_step; [done | apply IH].
Qed.

Lemma update_agent_raises b : raises_only not_insufficient (update_agent b).
Proof.
  intros w. pose proof (update_agent_outcome b w) as Hout. unfold wp.
  destruct (update_agent b w) as [|e w']; [done|].
  by destruct Hout as [(-> & _) | [(-> & _) | (-> & _)]].
Qed.

(** Sampling under the loop's guard. *)
Lemma buffer_sample_guarded (n : Z) (w : World) :
  (buffer_len (buffer w) >=? n) = true ->
  wp (buffer_sample n) (fun _ _ => True) (fun e _ => not_insufficient e) w.
Proof.
  intros Hguard. unfold buffer_sample. apply wp_bind, wp_get.
  replace (buffer_len (buffer w) <? n) with false by (symmetry; lia).
  apply buffer_draw_raises.
Qed.

Lemma update_if_ready_raises : raises_only not_insufficient update_if_ready.
Proof.
  intros w. unfold update_if_ready. apply wp_bind, wp_get.
  destruct (buffer_len (buffer w) >=? batch_size (hp w)) eqn:Hguard;
    [|by apply wp_ret].
  apply wp_bind. eapply wp_mono; [by apply buffer_sample_guarded | | done].
  intros batch w' _. apply wp_bind.
  eapply wp_mono; [apply update_agent_raises | | done].
  intros loss w'' _. by apply wp_ret.
Qed.

Lemma end_episode_raises P ended ns r rr :
  raises_only P (end_episode ended ns r rr).
Proof.
  unfold end_episode. destruct ended; [|apply raises_only_ret].
  apply raises_only_bind; [apply env_do_reset_raises|].
  intros ?. apply raises_only_ret.
Qed.

Lemma log_progress_raises ei frame rr :
  raises_only not_insufficient (log_progress ei frame rr).
Proof.
  unfold log_progress. repeat raises_only_step. by intros e ->%py_mod_Err.
Qed.

Lemma train_body_raises ei frame loc :
  raises_only not_insufficient (train_body ei frame loc).
Proof.
  unfold train_body.
  apply raises_only_bind; [apply predict_action_raises | intros action].
  apply raises_only_bind; [apply env_do_step_raises|].
  intros [[[ns r] d] tr]. repeat raises_only_step.
  - apply update_if_ready_raises.
  - apply end_episode_raises.
  - apply log_progress_raises.
Qed.

Lemma train_raises num_frames ei :
  raises_only not_insufficient (train num_frames ei).
Proof.
  unfold train.
  apply raises_only_bind; [apply env_do_reset_raises | intros state0].
  apply raises_only_bind; [|intros ?; apply raises_only_ret].
  intros w. eapply wp_mono.
  - apply (wp_for_each _ (fun _ _ => True) (fun e _ => not_insufficient e)).
    + intros frame loc s _ _. apply train_body_raises.
    + done.
  - done.
  - done.
Qed.

(** Drawing returns stored transitions, one per requested slot. *)
Lemma buffer_draw_total (k : nat) (w : World) :
  (k <> 0%nat -> storage (buffer w) <> []) ->
  wp (buffer_draw randint k)
     (fun ts w' => length ts = k
                   /\ Forall (fun t => t ∈ storage (buffer w)) ts
                   /\ kept w' = kept w)
     (fun _ _ => False) w.
Proof.
  revert w. induction k as [|k IH]; intros w Hne; cbn [buffer_draw].
  - by apply wp_ret.
  - apply wp_bind. unfold np_random_randint at 1, wp at 1.
    destruct (randint (np_random w)) as [i g].
    apply wp_bind, wp_get. cbn [buffer set_np_random].
    assert (Hlen : (0 < length (storage (buffer w)))%nat).
    { destruct (storage (buffer w)); [by destruct Hne | cbn; lia]. }
    destruct (lookup_lt_is_Some_2 (storage (buffer w))
                (i mod length (storage (buffer w)))) as [t Ht].
    { apply Nat.mod_upper_bound. lia. }
    rewrite Ht. apply wp_bind, wp_ret, wp_bind.
    eapply wp_mono; [apply IH | | done].
    + intros _. cbn. by destruct (storage (buffer w)).
    + intros ts w' (Hts & Hall & Hk). apply wp_ret. cbn in Hall, Hk.
      split; [cbn; lia|]. split; [|done].
      constructor; [by eapply list_elem_of_lookup_2 | done].
Qed.

Lemma buffer_sample_total (n : Z) (w : World) :
  n <= buffer_len (buffer w) ->
  wp (buffer_sample n)
     (fun ts w' => length ts = Z.to_nat n
                   /\ Forall (fun t => t ∈ storage (buffer w)) ts
                   /\ kept w' = kept w)
     (fun _ _ => False) w.
Proof.
  intros Hn. unfold buffer_sample. apply wp_bind, wp_get.
  replace (buffer_len (buffer w) <? n) with false by (symmetry; lia).
  apply buffer_draw_total. intros Hk.
  unfold buffer_len in Hn. destruct (storage (buffer w)); [cbn in Hn; lia | done].
Qed.

Lemma buffer_sample_short (n : Z) (w : World) :
  buffer_len (buffer w) < n ->
  buffer_sample n w = Raise InsufficientDataError w.
Proof.
  intros Hn. unfold buffer_sample. rewrite mbind_run. cbn [get].
  by replace (buffer_len (buffer w) <? n) with true by (symmetry; lia).
Qed.

(** C8: sampling fails with [InsufficientDataError] exactly when the
    buffer holds fewer than [n] transitions, and otherwise returns [n]
    stored transitions; the loop's update block does nothing at all while
    the buffer is shorter than [batch_size], and neither that block nor
    [train] as a whole ever ends in [InsufficientDataError]. *)
Theorem sample_precondition_respected (n num_frames ei : Z) (w : World) :
  (buffer_len (buffer w) < n ->
     buffer_sample n w = Raise InsufficientDataError w)
  /\ (n <= buffer_len (buffer w) ->
       exists ts w', buffer_sample n w = Ret ts w'
         /\ length ts = Z.to_nat n
         /\ Forall (fun t => t ∈ storage (buffer w)) ts)
  /\ (buffer_len (buffer w) < batch_size (hp w) ->
       update_if_ready w = Ret tt w)
  /\ (forall w', update_if_ready w <> Raise InsufficientDataError w')
  /\ (forall w', train num_frames ei w <> Raise InsufficientDataError w').
Proof.
  split; [apply buffer_sample_short|].
  split.
  { intros Hn. destruct (wp_total _ _ _ (buffer_sample_total n w Hn))
      as (ts & w' & Hrun & Hlen & Hall & _). eauto. }
  split.
  { intros Hlt. unfold update_if_ready. rewrite mbind_run. cbn [get].
    by replace (_ >=? _) with false by (symmetry; lia). }
  split.
  - intros w' Hrun.
    by apply (raises_only_Raise _ _ _ _ _ update_if_ready_raises) in Hrun.
  - intros w' Hrun.
    by apply (raises_only_Raise _ _ _ _ _ (train_raises num_frames ei)) in Hrun.
Qed.

(** **** The loop runs to its end *)

Lemma greedy_action_total n_actions (state : list R) (w : World) :
  net_ok n_actions -> (0 < n_actions)%nat -> length state = obs_dim ->
  wp (greedy_action state)
     (fun a _ => 0 <= a < Z.of_nat n_actions) (fun _ _ => False) w.
Proof.
  intros Hnet Hpos Hlen. unfold greedy_action.
  apply wp_bind, wp_get, wp_bind, wp_lift. rewrite forward_one by done.
  apply wp_lift. monad_unfold. cbn.
  destruct (argmax (net (q w) state)) as [a|e] eqn:Ha.
  - cbn. apply argmax_correct in Ha as (i & v & -> & Hi & _).
    apply lookup_lt_Some in Hi. rewrite (Hnet _ _ Hlen) in Hi. lia.
  - destruct (argmax_total (net (q w) state)) as [a Ha']; [|congruence].
    intros Hnil. specialize (Hnet (q w) state Hlen).
    rewrite Hnil in Hnet. cbn in Hnet. lia.
Qed.

Lemma predict_action_total n_actions (state : list R) (w : World) :
  net_ok n_actions -> env_ok n_actions -> length state = obs_dim ->
  epsilon_decay (hp w) <> 0 ->
  wp (predict_action state false)
     (fun a w' => 0 <= a < Z.of_nat n_actions /\ kept w' = kept w)
     (fun _ _ => False) w.
Proof.
  intros Hnet (_ & _ & Hsample) Hlen Hdecay.
  assert (Hpos : (0 < n_actions)%nat).
  { specialize (Hsample (env w)). lia. }
  apply wp_preserves; [apply predict_action_kept|].
  unfold predict_action. apply wp_bind.
  unfold np_random_rand at 1, wp at 1.
  destruct (rand (np_random w)) as [u g].
  apply wp_bind. unfold wp at 1.
  rewrite (epsilon_run (set_np_random g w)) by done.
  destruct (Rlt_dec _ _).
  - unfold wp, env_action_space_sample. cbn [env set_np_random].
    specialize (Hsample (env w)).
    by destruct (action_space_sample (env w)).
  - by eapply greedy_action_total.
Qed.

Lemma buffer_add_ok n_actions (t : Transition) (b : ReplayBuffer) :
  stored_ok n_actions t ->
  Forall (stored_ok n_actions) (storage b) ->
  Forall (stored_ok n_actions) (storage (buffer_add t b)).
Proof.
  intros Ht Hb. unfold buffer_add. cbn.
  apply Forall_app. split; [|by constructor].
  destruct (buffer_len b =? capacity b); [|done].
  destruct (storage b); [done|]. by apply Forall_cons in Hb as [_ ?].
Qed.

Lemma stored_sample_ok n_actions (w : World) (t : Transition) :
  net_ok n_actions -> (0 < n_actions)%nat ->
  stored_ok n_actions t -> sample_ok w t.
Proof.
  intros Hnet Hpos (Hs & Hn & Ha). unfold sample_ok.
  rewrite (Hnet _ _ Hs). repeat split; try done; try lia.
  intros Hnil. specialize (Hnet (target_q w) _ Hn).
  rewrite Hnil in Hnet. cbn in Hnet. lia.
Qed.

Lemma update_if_ready_total n_actions (w : World) :
  net_ok n_actions -> (0 < n_actions)%nat -> train_ready n_actions w ->
  wp update_if_ready (fun _ w' => kept w' = kept w) (fun _ _ => False) w.
Proof.
  intros Hnet Hpos (Hbuf & _ & Hfreq & Hbatch).
  unfold update_if_ready. apply wp_bind, wp_get.
  destruct (buffer_len (buffer w) >=? batch_size (hp w)) eqn:Hguard;
    [|by apply wp_ret].
  apply wp_bind. eapply wp_mono;
    [apply buffer_sample_total; lia | | done].
  intros batch w1 (Hlen & Hall & Hk1). cbn beta.
  apply wp_bind.
  assert (Hhp : hp w1 = hp w) by (unfold kept in Hk1; congruence).
  destruct (update_agent_total batch w1) as (loss & w2 & Hrun).
  { intros ->. cbn in Hlen. lia. }
  { by rewrite Hhp. }
  { eapply Forall_impl; [exact Hall|]. intros t Ht. cbn in Ht.
    eapply stored_sample_ok; [done..|].
    rewrite Forall_forall in Hbuf. by apply Hbuf. }
  pose proof (update_agent_kept batch w1) as Hk2.
  unfold wp at 1. rewrite Hrun in *. cbn in Hk2.
  apply wp_ret. congruence.
Qed.

(** **** Evaluation checkpoints *)

Lemma preserves_kept_hist {A} (c : M World A) :
  preserves kept c -> preserves hist c.
Proof. intros Hc w. specialize (Hc w). unfold kept, hist in *. congruence. Qed.

Lemma py_slice_from_neg {A} (ei : Z) (l : list A) :
  0 < ei -> py_slice_from (- ei) l = most_recent (Z.to_nat ei) l.
Proof.
  intros Hei. unfold py_slice_from, most_recent.
  replace (- ei <? 0) with true by (symmetry; lia).
  by rewrite Z.opp_involutive.
Qed.

Lemma log_progress_spec (ei frame : Z) (recent : list R) (w : World) :
  0 < ei ->
  wp (log_progress ei frame recent)
     (fun _ w' => logged ei frame recent w w') (fun _ _ => False) w.
Proof.
  intros Hei. unfold log_progress, logged, is_checkpoint, py_mod, checkpoint_mean.
  replace (ei =? 0) with false by (symmetry; lia).
  apply wp_bind, wp_lift.
  destruct (frame mod ei =? 0).
  - apply wp_bind, wp_get, wp_bind, wp_modify, wp_bind, wp_get, wp_modify.
    cbn. rewrite py_slice_from_neg by done. done.
  - apply wp_ret. by rewrite !app_nil_r.
Qed.

Lemma train_body_hist (ei frame : Z) (loc : Locals) (w : World) :
  0 < ei ->
  wp (train_body ei frame loc)
     (fun loc' w' =>
        frame_history w' =
          frame_history w ++ (if is_checkpoint ei frame then [frame] else [])
        /\ mean_reward_history w' =
            mean_reward_history w ++
              (if is_checkpoint ei frame
               then [checkpoint_mean ei (recent_rewards loc')] else []))
     (fun _ _ => True) w.
Proof.
  intros Hei. unfold train_body.
  apply wp_bind. eapply wp_mono;
    [apply (preserves_wp hist), preserves_kept_hist, predict_action_kept
    | | done].
  intros action w1 H1. cbn beta.
  apply wp_bind. eapply wp_mono;
    [apply (preserves_wp hist), preserves_kept_hist, env_do_step_kept
    | | done].
  intros [[[ns r] d] tr] w2 H2. cbn beta.
  apply wp_bind, wp_get, wp_bind, wp_modify.
  apply wp_bind. eapply wp_mono;
    [apply (preserves_wp hist), preserves_kept_hist, update_if_ready_kept
    | | done].
  intros ? w3 H3. cbn beta.
  apply wp_bind. eapply wp_mono;
    [apply (preserves_wp hist), preserves_kept_hist, end_episode_kept
    | | done].
  intros loc' w4 H4. cbn beta.
  apply wp_bind. eapply wp_mono; [by apply log_progress_spec | | done].
  intros ? w5 (Hf & Hm & _). apply wp_ret.
  unfold hist in *. cbn in H3. rewrite Hf, Hm. split; congruence.
Qed.

Lemma train_ready_kept n_actions (w w' : World) :
  kept w' = kept w -> train_ready n_actions w -> train_ready n_actions w'.
Proof.
  intros (Hhp & _ & _ & Hb)%kept_inv. unfold train_ready.
  by rewrite Hhp, Hb.
Qed.

Lemma end_episode_total n_actions ended ns r rr (w : World) :
  env_ok n_actions -> length ns = obs_dim ->
  wp (end_episode ended ns r rr)
     (fun loc' w' => length (state loc') = obs_dim /\ kept w' = kept w)
     (fun _ _ => False) w.
Proof.
  intros (Hreset & _) Hns. apply wp_preserves; [apply end_episode_kept|].
  unfold end_episode. destruct ended; [|by apply wp_ret].
  apply wp_bind. unfold env_do_reset, wp at 1.
  specialize (Hreset (env w)). destruct (env_reset (env w)) as [s0 e'].
  by apply wp_ret.
Qed.

Lemma train_body_total n_actions (ei frame : Z) (loc : Locals) (w : World) :
  net_ok n_actions -> env_ok n_actions -> 0 < ei ->
  length (state loc) = obs_dim -> train_ready n_actions w ->
  wp (train_body ei frame loc)
     (fun loc' w' => length (state loc') = obs_dim /\ train_ready n_actions w')
     (fun _ _ => False) w.
Proof.
  intros Hnet Henv Hei Hstate Hready.
  assert (Hpos : (0 < n_actions)%nat).
  { destruct Henv as (_ & _ & Hsample). specialize (Hsample (env w)). lia. }
  unfold train_body.
  apply wp_bind. eapply wp_mono;
    [apply (predict_action_total n_actions); try done; apply Hready | | done].
  intros action w1 (Haction & Hk1). cbn beta.
  apply wp_bind. unfold env_do_step at 1, wp at 1.
  pose proof Henv as (Hreset & Hstep & Hsample).
  specialize (Hstep action (env w1)).
  destruct (env_step action (env w1)) as [[[[ns r] d] tr] e'].
  cbn in Hstep. apply wp_bind, wp_get, wp_bind, wp_modify.
  set (w2 := set_buffer _ _).
  assert (Hready2 : train_ready n_actions w2).
  { destruct Hready as (Hbuf & Hrest).
    apply kept_inv in Hk1 as (Hhp & _ & _ & Hb).
    split; [|cbn; by rewrite Hhp].
    cbn. rewrite Hb. by apply buffer_add_ok. }
  apply wp_bind. eapply wp_mono;
    [apply (update_if_ready_total n_actions); done | | done].
  intros ? w3 Hk3. cbn beta.
  apply wp_bind. eapply wp_mono;
    [by apply (end_episode_total n_actions) | | done].
  intros loc' w4 (Hloc' & Hk4). cbn beta.
  apply wp_bind. eapply wp_mono; [by apply log_progress_spec | | done].
  intros ? w5 (_ & _ & Hk5). apply wp_ret. split; [done|].
  apply kept_inv in Hk3 as (Hhp3 & _ & _ & Hb3).
  apply kept_inv in Hk4 as (Hhp4 & _ & _ & Hb4).
  unfold kept in Hk5. injection Hk5 as Hhp5 Hb5.
  unfold train_ready. by rewrite Hhp5, Hb5, Hhp4, Hb4, Hhp3, Hb3.
Qed.

Lemma checkpoints_snoc ei frames frame :
  checkpoints ei (frames ++ [frame]) =
    checkpoints ei frames ++ (if is_checkpoint ei frame then [frame] else []).
Proof.
  unfold checkpoints. rewrite filter_app. f_equal.
  rewrite filter_cons, filter_nil.
  destruct (is_checkpoint ei frame); by case_decide.
Qed.

Lemma train_run n_actions (num_frames ei : Z) (w : World) :
  net_ok n_actions -> env_ok n_actions -> 0 < ei ->
  train_ready n_actions w ->
  exists w',
    train num_frames ei w = Ret tt w'
    /\ frame_history w' =
        frame_history w ++ checkpoints ei (py_range 1 (num_frames + 1))
    /\ length (mean_reward_history w') =
        (length (mean_reward_history w)
         + length (checkpoints ei (py_range 1 (num_frames + 1))))%nat
    /\ train_ready n_actions w'.
Proof.
  intros Hnet Henv Hei Hready.
  enough (Hwp : wp (train num_frames ei)
    (fun _ w' =>
       frame_history w' =
         frame_history w ++ checkpoints ei (py_range 1 (num_frames + 1))
       /\ length (mean_reward_history w') =
           (length (mean_reward_history w)
            + length (checkpoints ei (py_range 1 (num_frames + 1))))%nat
       /\ train_ready n_actions w') (fun _ _ => False) w).
  { apply wp_total in Hwp as ([] & w' & Hrun & Hw'). eauto. }
  unfold train. apply wp_bind.
  unfold env_do_reset at 1, wp at 1.
  pose proof (proj1 Henv (env w)) as Hs0.
  destruct (env_reset (env w)) as [s0 e0]. cbn in Hs0.
  apply wp_bind.
  set (Inv := fun (visited : list Z) (loc : Locals) (s : World) =>
    length (state loc) = obs_dim /\ train_ready n_actions s
    /\ frame_history s = frame_history w ++ checkpoints ei visited
    /\ length (mean_reward_history s) =
        (length (mean_reward_history w) + length (checkpoints ei visited))%nat).
  eapply wp_mono;
    [apply (wp_for_each_visited _ Inv (fun _ _ => False)
              (py_range 1 (num_frames + 1))) with (pre := []) | | done].
  - intros visited frame loc s (Hloc & Hrdy & Hf & Hm).
    eapply wp_mono;
      [apply wp_conj;
         [by apply (train_body_total n_actions ei frame loc s)
         |by apply (train_body_hist ei frame loc s)] | | ].
    + intros loc' s' ((Hloc' & Hrdy') & Hf' & Hm'). unfold Inv.
      rewrite checkpoints_snoc. split; [done|]. split; [done|].
      rewrite Hf', Hm', Hf, !length_app, Hm, <- app_assoc.
      split; [done|]. destruct (is_checkpoint ei frame); simpl; lia.
    + by intros e s' [? _].
  - unfold Inv, checkpoints. rewrite filter_nil, app_nil_r.
    split; [done|]. split; [exact Hready|]. split; [done|]. cbn. lia.
  - intros loc s (_ & Hrdy & Hf & Hm). by apply wp_ret.
Qed.



(** ** Further properties of the code *)

(** *** The learner step *)

Lemma update_agent_outside (b : list Transition) :
  preserves outside_learner (update_agent b).
Proof.
  intros w. pose proof (update_agent_outcome b w) as Hout.
  destruct (update_agent b w) as [loss w'|e w']; cbn.
  - destruct Hout as (u & _ & _ & _ & ->).
    edestruct after_update_fields
      as (_ & _ & _ & _ & Hhp & Hb & He & Hr & Hd & Hf & Hm).
    unfold outside_learner. by rewrite Hhp, Hb, He, Hr, Hd, Hf, Hm.
  - by destruct Hout as [(_ & _ & ->) | [(_ & ->) | (_ & _ & u & _ & ->)]].
Qed.

(** X1: a learner step, whether it returns or raises, leaves the
    environment, the buffer, the hyperparameters, both histories, numpy's
    generator and the file system as they were; the target parameters
    afterwards are the old ones or a copy of the new online ones, never
    anything else, and the counter moves by at most one. *)
Theorem update_agent_confined (b : list Transition) (w : World) :
  let w' := final (update_agent b w) in
  env w' = env w /\ buffer w' = buffer w /\ hp w' = hp w
  /\ frame_history w' = frame_history w
  /\ mean_reward_history w' = mean_reward_history w
  /\ np_random w' = np_random w /\ disk w' = disk w
  /\ (target_q w' = target_q w \/ target_q w' = q w')
  /\ (total_steps w' = total_steps w \/ total_steps w' = total_steps w + 1).
Proof.
  intros w'. pose proof (update_agent_outside b w) as Hout.
  fold w' in Hout. unfold outside_learner in Hout.
  injection Hout as He Hb Hhp Hf Hm Hr Hd.
  do 7 (split; [done|]).
  subst w'. pose proof (update_agent_outcome b w) as Hrun.
  destruct (update_agent b w) as [loss w'|e w']; cbn.
  - destruct Hrun as (u & _ & _ & _ & ->).
    edestruct after_update_fields as (Hq & _ & Hts & Htq & _).
    rewrite Hq, Hts, Htq.
    split; [|by right].
    destruct (_ =? 0); [by right | by left].
  - destruct Hrun as [(_ & _ & ->) | [(_ & ->) | (_ & _ & u & _ & ->)]];
      split; by left.
Qed.

(** X2: a learner step that raises [ValueError] or [ShapeMismatchError]
    has changed nothing; one that raises [ZeroDivisionError] has already
    applied the optimizer step to the online parameters and the optimizer
    state, while the counter and the target parameters are still the old
    ones. *)
Theorem update_agent_failure (b : list Transition) (w w' : World) (e : exn) :
  update_agent b w = Raise e w' ->
  (e <> ZeroDivisionError -> w' = w)
  /\ (e = ZeroDivisionError ->
      exists target,
        adam_step (q w) (optimizer w) (map t_state b) (map t_action b) target
          = (q w', optimizer w')
        /\ total_steps w' = total_steps w
        /\ target_q w' = target_q w).
Proof.
  intros Hrun. pose proof (update_agent_outcome b w) as Hout.
  rewrite Hrun in Hout.
  destruct Hout as [(-> & _ & ->) | [(-> & ->) | (-> & _ & u & _ & ->)]];
    split; try done.
  intros _. exists (u_target b w u). cbn.
  by destruct (adam_step _ _ _ _ _).
Qed.

Lemma gather_lookup (values : list (list R)) (a : list Z) (pred : list R)
    (i : nat) (row : list R) (ai : Z) :
  gather values a = Ok pred ->
  values !! i = Some row -> a !! i = Some ai ->
  0 <= ai < Z.of_nat (length row)
  /\ pred !! i = Some (nth (Z.to_nat ai) row 0%R).
Proof.
  intros Hg Hrow Hai. unfold gather in Hg.
  destruct (rmap_lookup _ _ _ i (row, ai) Hg) as (y & Hy & Hpi).
  { by rewrite lookup_zip_with, Hrow, Hai. }
  cbn in Hy.
  destruct (0 <=? ai) eqn:H0; destruct (ai <? Z.of_nat (length row)) eqn:H1;
    cbn in Hy; try done.
  injection Hy as <-. split; [lia | done].
Qed.










Lemma forward_Ok_shapes (p : Params) (batch out : list (list R)) :
  forward obs_dim net p batch = Ok out ->
  Forall (fun s => length s = obs_dim) batch.
Proof.
  unfold forward. destruct (forallb _ _) eqn:Hall; [|done]. intros _.
  apply Forall_forall. intros s Hs. rewrite forallb_forall in Hall.
  apply Nat.eqb_eq, Hall. by apply list_elem_of_In.
Qed.

Lemma trace_not_malformed (b : list Transition) (w : World) (u : UpdateTrace) :
  trace_of b w u -> Forall (fun t => ~ malformed w t) b.
Proof.
  intros (Hne & _ & _ & Hq & Hg & Hnq & _).
  pose proof (forward_Ok_shapes _ _ _ Hq) as Hs.
  pose proof (forward_Ok_shapes _ _ _ Hnq) as Hn.
  apply forward_Ok in Hq.
  rewrite Forall_map_iff in Hs. rewrite Forall_map_iff in Hn.
  apply Forall_lookup. intros i t Hi.
  rewrite Forall_lookup in Hs. rewrite Forall_lookup in Hn.
  destruct (gather_lookup _ _ _ i (net (q w) (t_state t)) (t_action t) Hg)
    as (Ha & _).
  { by rewrite Hq, !map_lookup, Hi. }
  { by rewrite map_lookup, Hi. }
  intros [Hbad | [Hbad | Hbad]]; [by apply Hbad, (Hs i) | by apply Hbad, (Hn i) | done].
Qed.

(** X5: a batch holding a transition whose state or next state has not
    the approximator's input size, or whose action is not an index of the
    online approximator's output, makes the learner step raise before the
    optimizer step: the store is unchanged. *)
Theorem update_agent_malformed (b : list Transition) (w : World) :
  Exists (malformed w) b ->
  exists e, update_agent b w = Raise e w.
Proof.
  intros Hbad. exists ShapeMismatchError.
  pose proof (update_agent_outcome b w) as Hout.
  assert (Hno : forall u, ~ trace_of b w u).
  { intros u Hu. apply trace_not_malformed in Hu.
    apply Exists_exists in Hbad as (t & Ht & Hm).
    rewrite Forall_forall in Hu. by apply (Hu t). }
  destruct (update_agent b w) as [loss w'|e w'].
  - destruct Hout as (u & Hu & _). by destruct (Hno u).
  - destruct Hout as [(_ & -> & _) | [(-> & ->) | (_ & _ & u & Hu & _)]].
    + by apply Exists_nil in Hbad.
    + done.
    + by destruct (Hno u).
Qed.

(** *** The exploration schedule and action selection *)

Lemma py_range_cons (a b : Z) :
  a < b -> py_range a b = a :: py_range (a + 1) b.
Proof.
  intros Hab. unfold py_range.
  replace (Z.to_nat (b - a)) with (S (Z.to_nat (b - (a + 1)))) by lia.
  cbn [seq map]. f_equal; [lia|].
  rewrite <- seq_shift, map_map. apply map_ext. intros i. lia.
Qed.

Lemma py_range_nil (a b : Z) : b <= a -> py_range a b = [].
Proof.
  intros Hab. unfold py_range.
  by replace (Z.to_nat (b - a)) with 0%nat by lia.
Qed.

(** X6: with [epsilon_decay = 0] the schedule raises [ZeroDivisionError];
    so does action selection in exploration mode, after one draw of
    numpy's generator, for every state; and [train] with at least one
    frame stops there, before anything is stored. *)
Theorem epsilon_zero_decay (state : list R) (num_frames ei : Z) (w : World) :
  epsilon_decay (hp w) = 0 ->
  epsilon w = Raise ZeroDivisionError w
  /\ predict_action state false w
     = Raise ZeroDivisionError (set_np_random (rand (np_random w)).2 w)
  /\ (0 < num_frames ->
      exists w', train num_frames ei w = Raise ZeroDivisionError w'
        /\ buffer w' = buffer w /\ total_steps w' = total_steps w).
Proof.
  intros Hd.
  assert (Heps : forall w0 : World, epsilon_decay (hp w0) = 0 ->
                   epsilon w0 = Raise ZeroDivisionError w0).
  { intros w0 H0. unfold epsilon, py_truediv. monad_unfold. by rewrite H0. }
  assert (Hpa : forall s (w0 : World), epsilon_decay (hp w0) = 0 ->
    predict_action s false w0
    = Raise ZeroDivisionError (set_np_random (rand (np_random w0)).2 w0)).
  { intros s w0 H0. unfold predict_action. rewrite mbind_run.
    unfold np_random_rand at 1. destruct (rand (np_random w0)) as [u g].
    rewrite mbind_run. by rewrite Heps. }
  split; [by apply Heps|]. split; [by apply Hpa|].
  intros Hn. unfold train. rewrite mbind_run. unfold env_do_reset at 1.
  destruct (env_reset (env w)) as [s0 e0]. rewrite mbind_run.
  rewrite py_range_cons by lia. cbn [for_each]. rewrite mbind_run.
  unfold train_body. rewrite mbind_run, Hpa by done.
  eexists. split; [reflexivity|]. done.
Qed.


(** X8: for a state of the approximator's input size, an approximator
    with [n_actions] outputs and an action space that samples valid
    indices, action selection returns an index below [n_actions] in
    evaluation mode, and in exploration mode too when
    [epsilon_decay] is not zero. *)
Theorem predict_action_valid (n_actions : nat) (state : list R)
    (evaluate : bool) (w : World) :
  net_ok n_actions -> (0 < n_actions)%nat ->
  (forall e, 0 <= (action_space_sample e).1 < Z.of_nat n_actions) ->
  length state = obs_dim ->
  (evaluate = false -> epsilon_decay (hp w) <> 0) ->
  exists a w', predict_action state evaluate w = Ret a w'
    /\ 0 <= a < Z.of_nat n_actions.
Proof.
  intros Hnet Hpos Hsample Hlen Hdecay.
  apply (wp_total (predict_action state evaluate)
           (fun a _ => 0 <= a < Z.of_nat n_actions)).
  unfold predict_action. destruct evaluate.
  { by apply (greedy_action_total n_actions). }
  apply wp_bind. unfold np_random_rand at 1, wp at 1.
  destruct (rand (np_random w)) as [u g].
  apply wp_bind. unfold wp at 1.
  rewrite (epsilon_run (set_np_random g w)) by (by apply Hdecay).
  destruct (Rlt_dec _ _).
  - unfold wp, env_action_space_sample. cbn [env set_np_random].
    specialize (Hsample (env w)).
    by destruct (action_space_sample (env w)).
  - by apply (greedy_action_total n_actions).
Qed.

(** X9: in exploration mode, when the draw is below [epsilon] the action
    is the action space's sample and neither the state nor the online
    parameters matter, so even a state of the wrong size is accepted;
    otherwise the outcome is that of evaluation mode on the same state. *)
Theorem predict_action_branches (state : list R) (w : World) :
  epsilon_decay (hp w) <> 0 ->
  let u := (rand (np_random w)).1 in
  let w1 := set_np_random (rand (np_random w)).2 w in
  let eps := epsilon_spec (epsilon_start (hp w)) (epsilon_final (hp w))
               (IZR (epsilon_decay (hp w))) (IZR (total_steps w)) in
  ((u < eps)%R ->
     forall state' p,
       result_of (predict_action state' false (set_q p w))
       = Ok (action_space_sample (env w)).1)
  /\ (~ (u < eps)%R ->
      result_of (predict_action state false w)
      = result_of (predict_action state true w)).
Proof.
  intros Hdecay u w1 eps. split.
  - intros Hlt state' p. unfold predict_action. rewrite mbind_run.
    unfold np_random_rand at 1. cbn [np_random set_q].
    subst u eps. destruct (rand (np_random w)) as [u g]. cbn [fst] in Hlt.
    rewrite mbind_run.
    rewrite (epsilon_run (set_np_random g (set_q p w))) by done.
    cbn [hp total_steps set_np_random set_q].
    destruct (Rlt_dec _ _); [|done].
    unfold env_action_space_sample. cbn [env set_np_random set_q].
    by destruct (action_space_sample (env w)).
  - intros Hge. unfold predict_action. rewrite mbind_run.
    unfold np_random_rand at 1.
    subst u eps. destruct (rand (np_random w)) as [u g]. cbn [fst] in Hge.
    rewrite mbind_run. rewrite (epsilon_run (set_np_random g w)) by done.
    cbn [hp total_steps set_np_random].
    destruct (Rlt_dec _ _); [done|].
    by apply greedy_action_params.
Qed.

(** *** Persistence *)

Lemma load_outside (path : string) : preserves outside_checkpoint (load path).
Proof.
  intros w. unfold load. rewrite mbind_run. cbn [get]. rewrite mbind_run.
  destruct (disk w !! path) as [c|]; [|done]. cbn [mret M_ret ret].
  rewrite mbind_run.
  destruct (decide (params_arch (ck_parameters c) = params_arch (q w)));
    [|done].
  cbn [modify optimizer set_q].
  by destruct (decide (optim_arch (ck_optimizer c) = optim_arch (optimizer w))).
Qed.

(** X10: [load] replaces the online parameters and the optimizer state
    and nothing else: the target parameters, the step counter, the
    buffer, the hyperparameters and the histories are those of before,
    whether it returns or raises; so after a successful [load] the target
    approximator is not a copy of the loaded online one unless it was
    before.  A path that holds no checkpoint raises [PersistenceError]
    and leaves the whole store unchanged. *)
Theorem load_scope (path : string) (w : World) :
  (let w' := final (load path w) in
   target_q w' = target_q w /\ total_steps w' = total_steps w
   /\ buffer w' = buffer w /\ hp w' = hp w
   /\ frame_history w' = frame_history w
   /\ mean_reward_history w' = mean_reward_history w
   /\ env w' = env w /\ np_random w' = np_random w /\ disk w' = disk w)
  /\ (forall w', load path w = Ret tt w' ->
       exists c, disk w !! path = Some c
         /\ q w' = ck_parameters c /\ optimizer w' = ck_optimizer c
         /\ target_q w' = target_q w)
  /\ (disk w !! path = None -> load path w = Raise PersistenceError w).
Proof.
  split; [|split].
  - intros w'. pose proof (load_outside path w) as Hout. fold w' in Hout.
    unfold outside_checkpoint in Hout.
    injection Hout as He Htq Hb Hhp Hts Hf Hm Hr Hd. by repeat split.
  - intros w' Hrun. revert Hrun. unfold load. rewrite mbind_run. cbn [get]. rewrite mbind_run.
    destruct (disk w !! path) as [c|]; [|done]. cbn [mret M_ret ret].
    rewrite mbind_run.
    destruct (decide (params_arch (ck_parameters c) = params_arch (q w)));
      [|done].
    cbn [modify optimizer set_q].
    destruct (decide (optim_arch (ck_optimizer c) = optim_arch (optimizer w)));
      [|done].
    intros [= <-]. exists c. by repeat split.
  - intros Hnone. unfold load. rewrite mbind_run. cbn [get].
    rewrite mbind_run. by rewrite Hnone.
Qed.


Lemma load_run (path : string) (w : World) (c : Checkpoint) :
  disk w !! path = Some c ->
  params_arch (ck_parameters c) = params_arch (q w) ->
  optim_arch (ck_optimizer c) = optim_arch (optimizer w) ->
  load path w
  = Ret tt (set_optimizer (ck_optimizer c) (set_q (ck_parameters c) w)).
Proof.
  intros Hc Hp Ho. unfold load. rewrite mbind_run. cbn [get].
  rewrite mbind_run, Hc. cbn [mret M_ret ret]. rewrite mbind_run.
  rewrite decide_True by done. cbn [modify optimizer set_q].
  by rewrite decide_True.
Qed.

(** X12: the last [save] to a path wins: after an agent saves, and then
    an agent sharing the file system saves to the same path, a [load] of
    that path installs the second agent's parameters and optimizer state,
    and the file system is what the second [save] alone would have left. *)
Theorem save_overwrites (path : string) (w w2 w4 : World) :
  disk w2 = disk (final (save path w)) ->
  disk w4 = disk (final (save path w2)) ->
  params_arch (q w4) = params_arch (q w2) ->
  optim_arch (optimizer w4) = optim_arch (optimizer w2) ->
  disk (final (save path w2))
    = <[path := {| ck_parameters := q w2; ck_optimizer := optimizer w2 |}]>
        (disk w)
  /\ load path w4
     = Ret tt (set_optimizer (optimizer w2) (set_q (q w2) w4)).
Proof.
  intros H2 H4 Hp Ho. rewrite save_run in H2, H4 |- *. cbn in H2, H4 |- *.
  split; [by rewrite H2, insert_insert_eq|].
  apply (load_run path w4
    {| ck_parameters := q w2; ck_optimizer := optimizer w2 |}); [|done..].
  by rewrite H4, lookup_insert_eq.
Qed.

(** X13: checkpoints under different paths do not disturb each other:
    after an agent saves to one path and an agent sharing the file system
    saves to another, a [load] of the first path still installs the first
    agent's parameters and optimizer state. *)
Theorem save_paths_independent (p1 p2 : string) (w w2 w4 : World) :
  p1 <> p2 ->
  disk w2 = disk (final (save p1 w)) ->
  disk w4 = disk (final (save p2 w2)) ->
  params_arch (q w4) = params_arch (q w) ->
  optim_arch (optimizer w4) = optim_arch (optimizer w) ->
  load p1 w4 = Ret tt (set_optimizer (optimizer w) (set_q (q w) w4)).
Proof.
  intros Hne H2 H4 Hp Ho. rewrite save_run in H2, H4. cbn in H2, H4.
  apply (load_run p1 w4
    {| ck_parameters := q w; ck_optimizer := optimizer w |}); [|done..].
  rewrite H4, lookup_insert_ne by done. by rewrite H2, lookup_insert_eq.
Qed.

(** *** The training loop *)

Lemma learner_state_inv (w w' : World) :
  learner_state w' = learner_state w ->
  q w' = q w /\ target_q w' = target_q w /\ optimizer w' = optimizer w
  /\ total_steps w' = total_steps w /\ hp w' = hp w /\ disk w' = disk w.
Proof. unfold learner_state. intros Hk. repeat split; congruence. Qed.

Lemma predict_action_learner (state : list R) (evaluate : bool) :
  preserves learner_state (predict_action state evaluate).
Proof.
  intros w. destruct (predict_action_agent_frame state evaluate w).
  destruct_and!. unfold learner_state. congruence.
Qed.

Lemma env_do_step_learner (a : Z) :
  preserves learner_state (env_do_step env_step a : M World _).
Proof. intros w. unfold env_do_step. by destruct (env_step a (env w)). Qed.

Lemma env_do_reset_learner :
  preserves learner_state (env_do_reset env_reset : M World _).
Proof. intros w. unfold env_do_reset. by destruct (env_reset (env w)). Qed.

Lemma np_random_randint_learner :
  preserves learner_state (np_random_randint randint : M World _).
Proof. intros w. unfold np_random_randint. by destruct (randint _). Qed.

Lemma buffer_draw_learner (k : nat) :
  preserves learner_state (buffer_draw randint k : M World _).
Proof.
  induction k as [|k IH]; cbn [buffer_draw].
  - apply preserves_ret.
  - apply preserves_bind; [apply np_random_randint_learner | intros i].
    repeat preserves_step. apply IH.
Qed.

Lemma buffer_sample_learner (n : Z) : preserves learner_state (buffer_sample n).
Proof.
  unfold buffer_sample. repeat preserves_step. apply buffer_draw_learner.
Qed.

Lemma end_episode_learner ended ns r rr :
  preserves learner_state (end_episode ended ns r rr).
Proof.
  unfold end_episode. destruct ended; [|apply preserves_ret].
  apply preserves_bind;
    [apply env_do_reset_learner | intros ?; apply preserves_ret].
Qed.

Lemma log_progress_learner ei frame rr :
  preserves learner_state (log_progress ei frame rr).
Proof. unfold log_progress. repeat preserves_step. Qed.

Lemma preserves_learner_counter {A} (c : M World A) :
  preserves learner_state c -> preserves total_steps c.
Proof.
  intros Hc w. specialize (Hc w).
  by apply learner_state_inv in Hc as (_ & _ & _ & -> & _).
Qed.

Lemma preserves_learner_fixed {A} (c : M World A) :
  preserves learner_state c -> preserves (fun w : World => (hp w, disk w)) c.
Proof.
  intros Hc w. specialize (Hc w).
  apply learner_state_inv in Hc as (_ & _ & _ & _ & -> & ->). done.
Qed.

Lemma update_agent_fixed (b : list Transition) :
  preserves (fun w : World => (hp w, disk w)) (update_agent b).
Proof.
  intros w. pose proof (update_agent_outside b w) as Hout.
  unfold outside_learner in Hout. congruence.
Qed.

Lemma update_agent_counter (b : list Transition) (w : World) :
  wp (update_agent b)
     (fun _ w' => total_steps w <= total_steps w' <= total_steps w + 1)
     (fun _ w' => total_steps w <= total_steps w' <= total_steps w + 1) w.
Proof.
  pose proof (update_agent_outcome b w) as Hout. unfold wp.
  destruct (update_agent b w) as [loss w'|e w'].
  - destruct Hout as (u & _ & _ & _ & ->).
    edestruct after_update_fields as (_ & _ & -> & _). lia.
  - destruct Hout as [(_ & _ & ->) | [(_ & ->) | (_ & _ & u & _ & ->)]];
      cbn; lia.
Qed.

Lemma update_if_ready_counter (w : World) :
  wp update_if_ready
     (fun _ w' => total_steps w <= total_steps w' <= total_steps w + 1)
     (fun _ w' => total_steps w <= total_steps w' <= total_steps w + 1) w.
Proof.
  unfold update_if_ready. apply wp_bind, wp_get.
  destruct (_ >=? _); [|apply wp_ret; lia].
  apply (wp_keep_then_step total_steps).
  - apply preserves_learner_counter, buffer_sample_learner.
  - intros batch s. apply (wp_step_then_keep total_steps).
    + apply update_agent_counter.
    + intros ?. apply preserves_ret.
Qed.

Lemma train_body_counter (ei frame : Z) (loc : Locals) (w : World) :
  wp (train_body ei frame loc)
     (fun _ w' => total_steps w <= total_steps w' <= total_steps w + 1)
     (fun _ w' => total_steps w <= total_steps w' <= total_steps w + 1) w.
Proof.
  unfold train_body. apply (wp_keep_then_step total_steps).
  { apply preserves_learner_counter, predict_action_learner. }
  intros action s. apply (wp_keep_then_step total_steps).
  { apply preserves_learner_counter, env_do_step_learner. }
  intros [[[ns r] d] tr] s1. apply (wp_keep_then_step total_steps).
  { apply preserves_get. }
  intros w1 s2. apply (wp_keep_then_step total_steps).
  { by apply preserves_modify. }
  intros ? s3. apply (wp_step_then_keep total_steps).
  { apply update_if_ready_counter. }
  intros ?. apply preserves_bind.
  { apply preserves_learner_counter, end_episode_learner. }
  intros loc'. apply preserves_bind.
  { apply preserves_learner_counter, log_progress_learner. }
  intros ?. apply preserves_ret.
Qed.

Lemma py_range_length (a b : Z) : length (py_range a b) = Z.to_nat (b - a).
Proof. unfold py_range. by rewrite length_map, length_seq. Qed.

(** X14: [train] with no frame to run only resets the environment: it
    returns with the rest of the store as it was, whatever
    [eval_interval], zero included. *)
Theorem train_no_frames (num_frames ei : Z) (w : World) :
  num_frames <= 0 ->
  train num_frames ei w = Ret tt (set_env (env_reset (env w)).2 w).
Proof.
  intros Hn. unfold train. rewrite mbind_run. unfold env_do_reset at 1.
  destruct (env_reset (env w)) as [s0 e0]. rewrite mbind_run.
  by rewrite py_range_nil by lia.
Qed.

(** X15: [train] makes at most one learner step per frame: whether it
    returns or raises, the step counter has not decreased and has grown by
    at most [num_frames]. *)
Theorem train_step_budget (num_frames ei : Z) (w : World) :
  let w' := final (train num_frames ei w) in
  total_steps w <= total_steps w' <= total_steps w + Z.max 0 num_frames.
Proof.
  intros w'. subst w'.
  apply (wp_always_final (train num_frames ei)
    (fun w' => total_steps w <= total_steps w'
               <= total_steps w + Z.max 0 num_frames)).
  unfold train. apply wp_bind. unfold env_do_reset at 1, wp at 1.
  destruct (env_reset (env w)) as [s0 e0]. apply wp_bind.
  eapply wp_mono;
    [apply (wp_for_each_count (train_body ei) total_steps);
     intros; apply train_body_counter | |].
  - intros loc s Hs. cbn beta in Hs. apply wp_ret.
    rewrite py_range_length in Hs. cbn in Hs. lia.
  - intros e s Hs. cbn beta in Hs.
    rewrite py_range_length in Hs. cbn in Hs. lia.
Qed.

Lemma update_if_ready_fixed :
  preserves (fun w : World => (hp w, disk w)) update_if_ready.
Proof.
  unfold update_if_ready. repeat preserves_step.
  - apply preserves_learner_fixed, buffer_sample_learner.
  - apply update_agent_fixed.
Qed.

Lemma train_body_fixed (ei frame : Z) (loc : Locals) :
  preserves (fun w : World => (hp w, disk w)) (train_body ei frame loc).
Proof.
  unfold train_body. repeat preserves_step.
  - apply preserves_learner_fixed, predict_action_learner.
  - apply preserves_learner_fixed, env_do_step_learner.
  - apply update_if_ready_fixed.
  - apply preserves_learner_fixed, end_episode_learner.
  - apply preserves_learner_fixed, log_progress_learner.
Qed.

(** X16: [train] never writes to the file system and never changes a
    hyperparameter, whether it returns or raises: no checkpoint is saved
    on the way. *)
Theorem train_keeps_config (num_frames ei : Z) (w : World) :
  let w' := final (train num_frames ei w) in
  hp w' = hp w /\ disk w' = disk w.
Proof.
  intros w'.
  assert (Hp : preserves (fun w : World => (hp w, disk w))
                 (train num_frames ei)).
  { unfold train. apply preserves_bind.
    { apply preserves_learner_fixed, env_do_reset_learner. }
    intros s0. apply preserves_bind; [|intros ?; apply preserves_ret].
    apply preserves_for_each. intros frame loc. apply train_body_fixed. }
  specialize (Hp w). fold w' in Hp. by injection Hp.
Qed.

Lemma log_progress_parallel (ei frame : Z) (rr : list R) (w : World) :
  length (frame_history w) = length (mean_reward_history w) ->
  wp (log_progress ei frame rr)
     (fun _ w' => length (frame_history w') = length (mean_reward_history w'))
     (fun _ w' => length (frame_history w') = length (mean_reward_history w'))
     w.
Proof.
  intros Hlen. unfold log_progress. apply wp_bind, wp_lift.
  destruct (py_mod frame ei) as [m|e]; [|done].
  destruct (m =? 0); [|by apply wp_ret].
  apply wp_bind, wp_get, wp_bind, wp_modify, wp_bind, wp_get, wp_modify.
  cbn. rewrite !length_app. cbn. lia.
Qed.

Lemma train_body_parallel (ei frame : Z) (loc : Locals) (w : World) :
  length (frame_history w) = length (mean_reward_history w) ->
  wp (train_body ei frame loc)
     (fun _ w' => length (frame_history w') = length (mean_reward_history w'))
     (fun _ w' => length (frame_history w') = length (mean_reward_history w'))
     w.
Proof.
  intros Hlen. unfold train_body.
  pose (P := fun h : list Z * list R => length h.1 = length h.2).
  apply wp_bind. eapply wp_mono;
    [apply (wp_always_of_preserves hist P);
       [apply preserves_kept_hist, predict_action_kept | exact Hlen]
    | | by intros].
  intros action w1 H1. cbn beta.
  apply wp_bind. eapply wp_mono;
    [apply (wp_always_of_preserves hist P);
       [apply preserves_kept_hist, env_do_step_kept | exact H1]
    | | by intros].
  intros [[[ns r] d] tr] w2 H2. cbn beta.
  apply wp_bind, wp_get, wp_bind, wp_modify.
  apply wp_bind. eapply wp_mono;
    [apply (wp_always_of_preserves hist P);
       [apply preserves_kept_hist, update_if_ready_kept | exact H2]
    | | by intros].
  intros ? w3 H3. cbn beta.
  apply wp_bind. eapply wp_mono;
    [apply (wp_always_of_preserves hist P);
       [apply preserves_kept_hist, end_episode_kept | exact H3]
    | | by intros].
  intros loc' w4 H4. cbn beta.
  apply wp_bind. eapply wp_mono;
    [apply log_progress_parallel; exact H4 | | by intros].
  intros ? w5 H5. by apply wp_ret.
Qed.

(** X17: the two histories stay parallel: if [frame_history] and
    [mean_reward_history] have the same length before [train], they have
    the same length after it, whether it returns or raises. *)
Theorem train_histories_parallel (num_frames ei : Z) (w : World) :
  length (frame_history w) = length (mean_reward_history w) ->
  let w' := final (train num_frames ei w) in
  length (frame_history w') = length (mean_reward_history w').
Proof.
  intros Hlen w'. subst w'.
  apply (wp_always_final (train num_frames ei)
    (fun w' => length (frame_history w') = length (mean_reward_history w'))).
  unfold train. apply wp_bind. unfold env_do_reset at 1, wp at 1.
  destruct (env_reset (env w)) as [s0 e0]. apply wp_bind.
  eapply wp_mono;
    [apply (wp_for_each_always (train_body ei)
              (fun w' : World => length (frame_history w')
                                 = length (mean_reward_history w')));
       [intros frame loc s Hs; by apply train_body_parallel | exact Hlen]
    | | by intros].
  intros loc s Hs. by apply wp_ret.
Qed.

(** X18: with [eval_interval = 0], on a well-behaved environment, [train]
    with at least one frame raises [ZeroDivisionError] at the end of the
    first pass: the first transition, from the reset observation, is in
    the buffer and neither history has an entry more. *)
Theorem train_zero_interval (n_actions : nat) (num_frames : Z) (w : World) :
  net_ok n_actions -> env_ok n_actions -> train_ready n_actions w ->
  0 < num_frames ->
  exists w' t,
    train num_frames 0 w = Raise ZeroDivisionError w'
    /\ buffer w' = buffer_add t (buffer w)
    /\ t_state t = (env_reset (env w)).1
    /\ frame_history w' = frame_history w
    /\ mean_reward_history w' = mean_reward_history w.
Proof.
  intros Hnet Henv Hready Hn.
  assert (Hpos : (0 < n_actions)%nat).
  { destruct Henv as (_ & _ & Hsample). specialize (Hsample (env w)). lia. }
  set (E := fun (e : exn) (w' : World) =>
    e = ZeroDivisionError
    /\ exists t, buffer w' = buffer_add t (buffer w)
         /\ t_state t = (env_reset (env w)).1
         /\ frame_history w' = frame_history w
         /\ mean_reward_history w' = mean_reward_history w).
  enough (Hwp : wp (train num_frames 0) (fun _ _ => False) E w).
  { unfold wp in Hwp. destruct (train num_frames 0 w) as [|e w']; [done|].
    destruct Hwp as (-> & t & Ht). by exists w', t. }
  unfold train. apply wp_bind. unfold env_do_reset at 1, wp at 1.
  pose proof (proj1 Henv (env w)) as Hs0. subst E.
  destruct (env_reset (env w)) as [s0 e0]. cbn [fst] in Hs0 |- *.
  apply wp_bind. rewrite py_range_cons by lia. cbn [for_each].
  apply wp_bind. unfold train_body.
  set (w0 := set_env e0 w).
  assert (Hready0 : train_ready n_actions w0) by exact Hready.
  apply wp_bind. eapply wp_mono;
    [apply (predict_action_total n_actions); try done; apply Hready0
    | | done].
  intros action w1 (Haction & Hk1). cbn beta.
  apply wp_bind. unfold env_do_step at 1, wp at 1.
  pose proof Henv as (Hreset & Hstep & Hsample).
  specialize (Hstep action (env w1)).
  destruct (env_step action (env w1)) as [[[[ns r] d] tr] e'].
  cbn in Hstep. apply wp_bind, wp_get, wp_bind, wp_modify.
  set (t := {| t_state := s0; t_action := action; t_reward := r;
               t_next_state := ns; t_done := d || tr; t_info := tt |}).
  set (w2 := set_buffer _ _).
  apply kept_inv in Hk1 as (Hhp1 & Hf1 & Hm1 & Hb1).
  assert (Hready2 : train_ready n_actions w2).
  { destruct Hready0 as (Hbuf & Hrest).
    split; [|cbn; by rewrite Hhp1].
    cbn. rewrite Hb1. by apply buffer_add_ok. }
  apply wp_bind. eapply wp_mono;
    [apply (update_if_ready_total n_actions); done | | done].
  intros ? w3 Hk3. cbn beta.
  apply wp_bind. eapply wp_mono;
    [by apply (end_episode_total n_actions) | | done].
  intros loc' w4 (Hloc' & Hk4). cbn beta.
  apply wp_bind. unfold log_progress. apply wp_bind, wp_lift.
  cbn [py_mod Z.eqb].
  apply kept_inv in Hk3 as (_ & Hf3 & Hm3 & Hb3).
  apply kept_inv in Hk4 as (_ & Hf4 & Hm4 & Hb4).
  split; [done|]. exists t.
  rewrite Hb4, Hb3, Hf4, Hf3, Hm4, Hm3. cbn. by rewrite Hb1, Hf1, Hm1.
Qed.

(** X19: frames are numbered from 1 in every call: a second [train] on
    the store left by a first one appends its own checkpoint frames,
    starting again at [eval_interval], after those of the first. *)
Theorem train_twice (n_actions : nat) (n1 n2 ei : Z) (w : World) :
  net_ok n_actions -> env_ok n_actions -> 0 < ei ->
  train_ready n_actions w ->
  exists w1 w2,
    train n1 ei w = Ret tt w1
    /\ train n2 ei w1 = Ret tt w2
    /\ frame_history w2 =
        frame_history w
          ++ filter (fun f => (f mod ei =? 0) = true) (py_range 1 (n1 + 1))
          ++ filter (fun f => (f mod ei =? 0) = true) (py_range 1 (n2 + 1)).
Proof.
  intros Hnet Henv Hei Hready.
  destruct (train_run n_actions n1 ei w) as (w1 & Hrun1 & Hf1 & _ & Hready1);
    [done..|].
  destruct (train_run n_actions n2 ei w1) as (w2 & Hrun2 & Hf2 & _);
    [done..|].
  exists w1, w2. split; [done|]. split; [done|].
  rewrite Hf2, Hf1. by rewrite <- app_assoc.
Qed.

Lemma py_range_snoc (a b : Z) :
  a <= b -> py_range a (b + 1) = py_range a b ++ [b].
Proof.
  intros Hab. unfold py_range.
  replace (Z.to_nat (b + 1 - a)) with (Z.to_nat (b - a) + 1)%nat by lia.
  rewrite seq_app, map_app. cbn. do 2 f_equal. lia.
Qed.

Lemma checkpoints_closed_form (ei : Z) (n : nat) :
  0 < ei ->
  checkpoints ei (py_range 1 (Z.of_nat n + 1))
  = map (fun k => k * ei) (py_range 1 (Z.of_nat n / ei + 1)).
Proof.
  intros Hei. induction n as [|n IH].
  { cbn. rewrite Z.div_0_l by lia. reflexivity. }
  replace (Z.of_nat (S n) + 1) with ((Z.of_nat n + 1) + 1) by lia.
  rewrite py_range_snoc by lia. rewrite checkpoints_snoc, IH.
  replace (Z.of_nat (S n)) with (Z.of_nat n + 1) by lia.
  unfold is_checkpoint.
  destruct (Z.eqb_spec ((Z.of_nat n + 1) mod ei) 0) as [Hm | Hm].
  - assert (Hdiv : (Z.of_nat n + 1) / ei = Z.of_nat n / ei + 1).
    { pose proof (Z.div_mod (Z.of_nat n + 1) ei ltac:(lia)) as H1.
      pose proof (Z.div_mod (Z.of_nat n) ei ltac:(lia)) as H2.
      pose proof (Z.mod_pos_bound (Z.of_nat n) ei Hei) as H3.
      rewrite Hm in H1. nia. }
    rewrite Hdiv. rewrite (py_range_snoc 1 (Z.of_nat n / ei + 1)).
    + rewrite map_app. cbn. do 2 f_equal.
      pose proof (Z.div_mod (Z.of_nat n + 1) ei ltac:(lia)) as H1.
      rewrite Hm, Hdiv in H1. lia.
    + pose proof (Z.div_pos (Z.of_nat n) ei ltac:(lia) Hei). lia.
  - assert (Hdiv : (Z.of_nat n + 1) / ei = Z.of_nat n / ei).
    { pose proof (Z.div_mod (Z.of_nat n + 1) ei ltac:(lia)) as H1.
      pose proof (Z.div_mod (Z.of_nat n) ei ltac:(lia)) as H2.
      pose proof (Z.mod_pos_bound (Z.of_nat n) ei Hei) as H3.
      pose proof (Z.mod_pos_bound (Z.of_nat n + 1) ei Hei) as H4.
      nia. }
    by rewrite Hdiv, app_nil_r.
Qed.

(** X20: on a well-behaved environment and with a positive
    [eval_interval], [train] appends to [frame_history] the frames
    [eval_interval], [2 * eval_interval], ... up to [num_frames]: there
    are [num_frames // eval_interval] of them, none when [num_frames] is
    smaller than [eval_interval], and [mean_reward_history] grows by the
    same number. *)
Theorem train_checkpoint_frames (n_actions : nat) (num_frames ei : Z)
    (w : World) :
  net_ok n_actions -> env_ok n_actions -> 0 < ei ->
  train_ready n_actions w ->
  exists w',
    train num_frames ei w = Ret tt w'
    /\ frame_history w' =
        frame_history w
          ++ map (fun k => k * ei) (py_range 1 (num_frames / ei + 1))
    /\ length (frame_history w') =
        (length (frame_history w) + Z.to_nat (num_frames / ei))%nat
    /\ length (mean_reward_history w') =
        (length (mean_reward_history w) + Z.to_nat (num_frames / ei))%nat.
Proof.
  intros Hnet Henv Hei Hready.
  destruct (train_run n_actions num_frames ei w) as (w' & Hrun & Hf & Hm & _);
    [done..|].
  assert (Hck : checkpoints ei (py_range 1 (num_frames + 1))
                = map (fun k => k * ei) (py_range 1 (num_frames / ei + 1))).
  { destruct (Z_lt_le_dec num_frames 0) as [Hneg | Hpos].
    - rewrite (py_range_nil 1 (num_frames + 1)) by lia.
      assert (num_frames / ei < 0) by (apply Z.div_lt_upper_bound; lia).
      by rewrite py_range_nil by lia.
    - rewrite <- (Z2Nat.id num_frames) by done.
      by apply checkpoints_closed_form. }
  exists w'. split; [done|]. rewrite Hck in Hf, Hm.
  split; [done|].
  rewrite Hm, Hf, length_app, length_map, py_range_length.
  split; f_equal; lia.
Qed.

Lemma end_episode_run (ended : bool) (ns : list R) (r : R) (rr : list R)
    (w : World) :
  exists w',
    end_episode ended ns r rr w
    = Ret (if ended
           then {| state := (env_reset (env w)).1; ep_reward := 0%R;
                   recent_rewards := rr ++ [r] |}
           else {| state := ns; ep_reward := r; recent_rewards := rr |}) w'.
Proof.
  unfold end_episode. destruct ended; [|by eexists].
  rewrite mbind_run. unfold env_do_reset at 1.
  destruct (env_reset (env w)) as [s0 e0]. by eexists.
Qed.

(** X21: a pass of the loop that returns books the reward it stored: the
    last transition of the buffer starts at the pass's state and carries
    the reward of the step; if its terminal flag is set, the episode's
    reward including this one is appended to the recent rewards and the
    running reward restarts at zero, otherwise the running reward grows
    by it and the next pass starts from the transition's next state.
    Either way the sum of the recent rewards and the running reward
    grows by exactly the stored reward. *)
Theorem train_body_rewards (ei frame : Z) (loc loc' : Locals) (w w' : World) :
  train_body ei frame loc w = Ret loc' w' ->
  exists t,
    last (storage (buffer w')) = Some t
    /\ t_state t = state loc
    /\ (if t_done t
        then recent_rewards loc'
               = recent_rewards loc ++ [(ep_reward loc + t_reward t)%R]
             /\ ep_reward loc' = 0%R
        else recent_rewards loc' = recent_rewards loc
             /\ ep_reward loc' = (ep_reward loc + t_reward t)%R
             /\ state loc' = t_next_state t)
    /\ (fold_right Rplus 0 (recent_rewards loc') + ep_reward loc'
        = fold_right Rplus 0 (recent_rewards loc) + ep_reward loc
          + t_reward t)%R.
Proof.
  intros Hrun. unfold train_body in Hrun. rewrite mbind_run in Hrun.
  destruct (predict_action (state loc) false w) as [action w1|e w1]; [|done].
  rewrite mbind_run in Hrun. unfold env_do_step at 1 in Hrun.
  destruct (env_step action (env w1)) as [[[[ns r] d] tr] e'].
  rewrite mbind_run in Hrun. cbn [get] in Hrun.
  rewrite mbind_run in Hrun. cbn [modify] in Hrun.
  rewrite mbind_run in Hrun.
  set (t := {| t_state := state loc; t_action := action; t_reward := r;
               t_next_state := ns; t_done := d || tr; t_info := tt |}) in *.
  set (w2 := set_buffer _ _) in Hrun.
  pose proof (update_if_ready_kept w2) as Hk3.
  destruct (update_if_ready w2) as [[] w3|e w3]; [|done]. cbn in Hk3.
  rewrite mbind_run in Hrun.
  pose proof (end_episode_kept (d || tr) ns (ep_reward loc + r)%R
                (recent_rewards loc) w3) as Hk4.
  destruct (end_episode_run (d || tr) ns (ep_reward loc + r)%R
              (recent_rewards loc) w3) as (w4 & Hee).
  rewrite Hee in Hrun, Hk4. cbn in Hk4. rewrite mbind_run in Hrun.
  match type of Hrun with
  | context [log_progress ei frame ?rr w4] =>
      pose proof (log_progress_buffer ei frame rr w4) as Hb5;
      destruct (log_progress ei frame rr w4) as [[] w5|e w5]; [|done]
  end.
  cbn in Hb5. injection Hrun as <- <-.
  apply kept_inv in Hk3 as (_ & _ & _ & Hb3).
  apply kept_inv in Hk4 as (_ & _ & _ & Hb4).
  exists t. split.
  { rewrite Hb5, Hb4, Hb3. cbn. by rewrite last_snoc. }
  split; [done|]. cbn [t_done t_reward t_next_state t].
  destruct (d || tr); cbn.
  - split; [done|]. rewrite fold_right_app. cbn.
    generalize (recent_rewards loc). intros l.
    induction l as [|x l IH]; cbn; lra.
  - split; [done|]. lra.
Qed.

End Theory.

(** ** The theorems on the concrete instance *)


Lemma greedy_deterministic_witness :
  q (Toy.fresh 10) = q (Toy.fresh 10)
  /\ final (predict_action 1 Toy.net Toy.rand Toy.action_space_sample
              [0%R] true (Toy.fresh 10)) = Toy.fresh 10.
Proof.
  split; [reflexivity|].
  exact (proj1 (proj2 (greedy_deterministic 1 Toy.net Toy.rand
    Toy.action_space_sample [0%R] (Toy.fresh 10) (Toy.fresh 10) eq_refl))).
Defined.


Lemma td_target_formula_witness :
  let b := [Toy.tr true] in
  let o := Toy.update_agent b (Toy.fresh 10) in
  Toy.update_agent b (Toy.fresh 10) = Ret (returned 0%R o) (final o)
  /\ exists pred target,
       returned 0%R o = mse_loss pred target /\ target = map t_reward b.
Proof.
  intros b o.
  assert (Hrun : Toy.update_agent b (Toy.fresh 10)
                 = Ret (returned 0%R o) (final o)) by reflexivity.
  split; [exact Hrun|].
  destruct (td_target_formula 1 Toy.net Toy.adam_step b (Toy.fresh 10) _ _ Hrun)
    as (pred & target & Hloss & _ & _ & _ & _ & Hdone).
  exists pred, target. split; [exact Hloss|].
  apply Hdone. by repeat constructor.
Defined.

Lemma target_sync_timing_witness :
  let b := [Toy.tr false] in
  let w0 := Toy.fresh 2 in
  let o1 := Toy.update_agent b w0 in
  let o2 := Toy.update_agent_seq [b] (final o1) in
  (total_steps w0 = 0
   /\ Toy.update_agent b w0 = Ret (returned 0%R o1) (final o1)
   /\ Toy.update_agent_seq [b] (final o1) = Ret (returned [] o2) (final o2)
   /\ Z.of_nat (length [b]) = target_update_freq (hp w0) - 1)
  /\ target_q (final o2) = q (final o1)
  /\ total_steps (final o2) = target_update_freq (hp w0).
Proof.
  intros b w0 o1 o2.
  assert (H0 : total_steps w0 = 0) by reflexivity.
  assert (H1 : Toy.update_agent b w0 = Ret (returned 0%R o1) (final o1))
    by reflexivity.
  assert (H2 : Toy.update_agent_seq [b] (final o1)
               = Ret (returned [] o2) (final o2)) by reflexivity.
  assert (H3 : Z.of_nat (length [b]) = target_update_freq (hp w0) - 1)
    by reflexivity.
  split; [by repeat split|].
  destruct (target_sync_timing 1 Toy.net Toy.adam_step b [b] w0 _ _ _ _
              H0 H1 H2 H3) as (_ & _ & Hfrozen & Hsteps & _).
  by split.
Defined.

Lemma truncation_stored_as_terminal_witness :
  let loc := {| state := [0%R]; ep_reward := 0%R; recent_rewards := [] |} in
  let t := stored loc 0 ([0%R], 1%R, false, true) in
  let o := Toy.update_agent [t] (Toy.fresh 10) in
  (Toy.update_agent [t] (Toy.fresh 10) = Ret (returned 0%R o) (final o)
   /\ [t] !! 0%nat = Some t
   /\ false || true = true)
  /\ exists pred target,
       returned 0%R o = mse_loss pred target /\ target !! 0%nat = Some 1%R.
Proof.
  intros loc t o.
  assert (Hrun : Toy.update_agent [t] (Toy.fresh 10)
                 = Ret (returned 0%R o) (final o)) by reflexivity.
  split; [by repeat split|].
  destruct (truncation_stored_as_terminal 1 Toy.net Toy.adam_step Toy.rand
              Toy.randint Toy.env_reset Toy.env_step Toy.action_space_sample
              50 1 loc (Toy.fresh 10) [t] (Toy.fresh 10) _ _ 0%nat 0
              [0%R] 1%R false true Hrun eq_refl eq_refl)
    as (_ & _ & pred & target & Hloss & _ & Htarget).
  by exists pred, target.
Defined.

Lemma toy_net_ok : net_ok 1 Toy.net 2.
Proof. intros p s _. reflexivity. Qed.

Lemma toy_env_ok :
  env_ok 1 Toy.env_reset Toy.env_step Toy.action_space_sample 2.
Proof. repeat split; cbn; lia. Qed.


(** ** Where the code departs from the claims *)

(** C1 fails on the code: with a period of 2, a new agent after exactly two
    learner steps has a target that differs from the online parameters; the
    copy was made by the first step, whose incremented counter, 1, is not a
    multiple of 2. *)
Lemma target_sync_counterexample :
  let b := [Toy.tr false] in
  let w0 := Toy.fresh 2 in
  let w1 := final (Toy.update_agent b w0) in
  let w2 := final (Toy.update_agent_seq [b; b] w0) in
  result_of (Toy.update_agent_seq [b; b] w0)
    = Ok [returned 0%R (Toy.update_agent b w0);
          returned 0%R (Toy.update_agent b w1)]
  /\ total_steps w0 = 0
  /\ total_steps w2 = target_update_freq (hp w0)
  /\ target_q w2 = 1 /\ q w2 = 2
  /\ target_q w2 <> q w2
  /\ total_steps w1 = 1 /\ total_steps w1 mod target_update_freq (hp w1) <> 0
  /\ target_q w0 = 0 /\ target_q w1 = 1 /\ q w1 = 1.
Proof.
  intros b w0 w1 w2. repeat split; try reflexivity; by vm_compute.
Qed.


(** ** The further properties on the concrete instance *)

Lemma update_agent_failure_witness :
  let b := [Toy.tr false] in
  let w := Toy.fresh 0 in
  let o := Toy.update_agent b w in
  Toy.update_agent b w = Raise ZeroDivisionError (final o)
  /\ total_steps (final o) = total_steps w
  /\ target_q (final o) = target_q w.
Proof.
  intros b w o.
  assert (Hrun : Toy.update_agent b w = Raise ZeroDivisionError (final o))
    by reflexivity.
  split; [exact Hrun|].
  destruct (update_agent_failure 1 Toy.net Toy.adam_step b w _ _ Hrun)
    as (_ & Hzero).
  destruct (Hzero eq_refl) as (target & _ & Hsteps & Htarget).
  by split.
Defined.



Lemma update_agent_malformed_witness :
  let t := {| t_state := []; t_action := 0; t_reward := 1%R;
              t_next_state := [0%R]; t_done := false; t_info := tt |} in
  let b := [Toy.tr false; t] in
  Exists (malformed 1 Toy.net (Toy.fresh 10)) b
  /\ exists e, Toy.update_agent b (Toy.fresh 10) = Raise e (Toy.fresh 10).
Proof.
  intros t b.
  assert (Hbad : Exists (malformed 1 Toy.net (Toy.fresh 10)) b).
  { apply Exists_cons_tl, Exists_cons_hd. left. cbn. lia. }
  split; [exact Hbad|].
  exact (update_agent_malformed 1 Toy.net Toy.adam_step b (Toy.fresh 10) Hbad).
Defined.

Lemma epsilon_zero_decay_witness :
  let w := Toy.fresh_decay 0 in
  epsilon_decay (hp w) = 0
  /\ epsilon w = Raise ZeroDivisionError w
  /\ exists w',
       train 1 Toy.net Toy.adam_step Toy.rand Toy.randint Toy.env_reset
         Toy.env_step Toy.action_space_sample 100 10 w
       = Raise ZeroDivisionError w'
       /\ buffer w' = buffer w.
Proof.
  intros w. split; [reflexivity|].
  destruct (epsilon_zero_decay 1 Toy.net Toy.adam_step Toy.rand Toy.randint
              Toy.env_reset Toy.env_step Toy.action_space_sample [0%R] 100 10
              w eq_refl) as (Heps & _ & Htrain).
  split; [exact Heps|].
  destruct (Htrain ltac:(lia)) as (w' & Hrun & Hbuf & _).
  by exists w'.
Defined.


Lemma predict_action_valid_witness :
  let w := Toy.fresh 10 in
  (net_ok 1 Toy.net 2
   /\ (0 < 2)%nat
   /\ (forall e, 0 <= (Toy.action_space_sample e).1 < Z.of_nat 2)
   /\ length [0%R] = 1%nat
   /\ (false = false -> epsilon_decay (hp w) <> 0))
  /\ exists a w',
       predict_action 1 Toy.net Toy.rand Toy.action_space_sample [0%R] false w
       = Ret a w'
       /\ 0 <= a < Z.of_nat 2.
Proof.
  intros w.
  assert (H2 : (0 < 2)%nat) by lia.
  assert (H3 : forall e : nat, 0 <= (Toy.action_space_sample e).1 < Z.of_nat 2)
    by (intros e; cbn; lia).
  assert (H5 : false = false -> epsilon_decay (hp w) <> 0)
    by (intros _; cbn; lia).
  split; [repeat split; try apply toy_net_ok; try apply H3; try apply H5; lia|].
  exact (predict_action_valid 1 Toy.net Toy.rand Toy.action_space_sample 2
           [0%R] false w toy_net_ok H2 H3 eq_refl H5).
Defined.

Lemma predict_action_branches_witness :
  let w := Toy.fresh 10 in
  epsilon_decay (hp w) <> 0
  /\ forall state' p,
       result_of (predict_action 1 Toy.net Toy.rand Toy.action_space_sample
                    state' false (set_q p w))
       = Ok 0.
Proof.
  intros w.
  assert (H1 : epsilon_decay (hp w) <> 0) by (cbn; lia).
  split; [exact H1|].
  apply (proj1 (predict_action_branches 1 Toy.net Toy.rand
                  Toy.action_space_sample [0%R] w H1)).
  cbn. unfold epsilon_spec.
  pose proof (exp_pos (- 0 / 50)). lra.
Defined.


Lemma save_overwrites_witness :
  let w := Toy.fresh 10 in
  let w2 := set_q 7 (final (save "agent.pt" w)) in
  let w4 := final (save "agent.pt" w2) in
  (disk w2 = disk (final (save "agent.pt" w))
   /\ disk w4 = disk (final (save "agent.pt" w2))
   /\ Toy.arch (q w4) = Toy.arch (q w2)
   /\ Toy.oarch (optimizer w4) = Toy.oarch (optimizer w2))
  /\ load Toy.arch Toy.oarch "agent.pt" w4
     = Ret tt (set_optimizer (optimizer w2) (set_q 7 w4)).
Proof.
  intros w w2 w4. split; [by repeat split|].
  exact (proj2 (save_overwrites Toy.arch Toy.oarch "agent.pt" w w2 w4
                  eq_refl eq_refl eq_refl eq_refl)).
Defined.

Lemma save_paths_independent_witness :
  let w := Toy.fresh 10 in
  let w2 := set_q 7 (final (save "first.pt" w)) in
  let w4 := final (save "second.pt" w2) in
  ("first.pt" <> "second.pt"
   /\ disk w2 = disk (final (save "first.pt" w))
   /\ disk w4 = disk (final (save "second.pt" w2))
   /\ Toy.arch (q w4) = Toy.arch (q w)
   /\ Toy.oarch (optimizer w4) = Toy.oarch (optimizer w))
  /\ load Toy.arch Toy.oarch "first.pt" w4
     = Ret tt (set_optimizer (optimizer w) (set_q 0 w4)).
Proof.
  intros w w2 w4.
  assert (Hne : "first.pt" <> "second.pt") by discriminate.
  split; [by repeat split|].
  exact (save_paths_independent Toy.arch Toy.oarch "first.pt" "second.pt"
           w w2 w4 Hne eq_refl eq_refl eq_refl eq_refl).
Defined.

Lemma train_no_frames_witness :
  0 <= 0
  /\ train 1 Toy.net Toy.adam_step Toy.rand Toy.randint Toy.env_reset
       Toy.env_step Toy.action_space_sample 0 50 (Toy.fresh 10)
     = Ret tt (Toy.fresh 10).
Proof.
  split; [lia|].
  exact (train_no_frames 1 Toy.net Toy.adam_step Toy.rand Toy.randint
           Toy.env_reset Toy.env_step Toy.action_space_sample 0 50
           (Toy.fresh 10) ltac:(lia)).
Defined.

Lemma train_histories_parallel_witness :
  let w := Toy.fresh 10 in
  let w' := final (train 1 Toy.net Toy.adam_step Toy.rand Toy.randint
                     Toy.env_reset Toy.env_step Toy.action_space_sample
                     20 5 w) in
  length (frame_history w) = length (mean_reward_history w)
  /\ length (frame_history w') = length (mean_reward_history w').
Proof.
  intros w w'. split; [reflexivity|].
  exact (train_histories_parallel 1 Toy.net Toy.adam_step Toy.rand
           Toy.randint Toy.env_reset Toy.env_step Toy.action_space_sample
           20 5 w eq_refl).
Defined.

Lemma toy_train_ready : train_ready 1 2 (Toy.fresh 10).
Proof. unfold train_ready. cbn. repeat split; (lia || constructor). Qed.

Lemma train_zero_interval_witness :
  (net_ok 1 Toy.net 2
   /\ env_ok 1 Toy.env_reset Toy.env_step Toy.action_space_sample 2
   /\ train_ready 1 2 (Toy.fresh 10)
   /\ 0 < 3)
  /\ exists w',
       train 1 Toy.net Toy.adam_step Toy.rand Toy.randint Toy.env_reset
         Toy.env_step Toy.action_space_sample 3 0 (Toy.fresh 10)
       = Raise ZeroDivisionError w'
       /\ length (storage (buffer w')) = 1%nat
       /\ frame_history w' = [].
Proof.
  split; [repeat split; try apply toy_net_ok; try apply toy_env_ok;
          try apply toy_train_ready; lia|].
  destruct (train_zero_interval 1 Toy.net Toy.adam_step Toy.rand Toy.randint
              Toy.env_reset Toy.env_step Toy.action_space_sample 2 3
              (Toy.fresh 10) toy_net_ok toy_env_ok toy_train_ready
              ltac:(lia))
    as (w' & t & Hrun & Hbuf & _ & Hf & _).
  exists w'. split; [exact Hrun|]. split; [by rewrite Hbuf | exact Hf].
Defined.

Lemma train_twice_witness :
  (net_ok 1 Toy.net 2
   /\ env_ok 1 Toy.env_reset Toy.env_step Toy.action_space_sample 2
   /\ 0 < 2
   /\ train_ready 1 2 (Toy.fresh 10))
  /\ exists w1 w2,
       train 1 Toy.net Toy.adam_step Toy.rand Toy.randint Toy.env_reset
         Toy.env_step Toy.action_space_sample 5 2 (Toy.fresh 10) = Ret tt w1
       /\ train 1 Toy.net Toy.adam_step Toy.rand Toy.randint Toy.env_reset
            Toy.env_step Toy.action_space_sample 4 2 w1 = Ret tt w2
       /\ frame_history w2 = [2; 4; 2; 4].
Proof.
  split; [repeat split; try apply toy_net_ok; try apply toy_env_ok;
          try apply toy_train_ready; lia|].
  destruct (train_twice 1 Toy.net Toy.adam_step Toy.rand Toy.randint
              Toy.env_reset Toy.env_step Toy.action_space_sample 2 5 4 2
              (Toy.fresh 10) toy_net_ok toy_env_ok eq_refl toy_train_ready)
    as (w1 & w2 & Hrun1 & Hrun2 & Hf).
  exists w1, w2. split; [exact Hrun1|]. split; [exact Hrun2 | exact Hf].
Defined.

Lemma train_checkpoint_frames_witness :
  (net_ok 1 Toy.net 2
   /\ env_ok 1 Toy.env_reset Toy.env_step Toy.action_space_sample 2
   /\ 0 < 50
   /\ train_ready 1 2 (Toy.fresh 10))
  /\ exists w',
       train 1 Toy.net Toy.adam_step Toy.rand Toy.randint Toy.env_reset
         Toy.env_step Toy.action_space_sample 230 50 (Toy.fresh 10)
       = Ret tt w'
       /\ frame_history w' = [50; 100; 150; 200]
       /\ length (mean_reward_history w') = 4%nat.
Proof.
  split; [repeat split; try apply toy_net_ok; try apply toy_env_ok;
          try apply toy_train_ready; lia|].
  destruct (train_checkpoint_frames 1 Toy.net Toy.adam_step Toy.rand
              Toy.randint Toy.env_reset Toy.env_step Toy.action_space_sample
              2 230 50 (Toy.fresh 10) toy_net_ok toy_env_ok eq_refl
              toy_train_ready)
    as (w' & Hrun & Hf & _ & Hm).
  exists w'. split; [exact Hrun|]. split; [exact Hf | exact Hm].
Defined.

Lemma train_body_rewards_witness :
  let loc := {| state := [0%R]; ep_reward := 2%R; recent_rewards := [5%R] |} in
  exists loc' w',
    train_body 1 Toy.net Toy.adam_step Toy.rand Toy.randint Toy.env_reset
      Toy.env_step Toy.action_space_sample 50 1 loc (Toy.fresh 10)
    = Ret loc' w'
    /\ exists t, last (storage (buffer w')) = Some t
         /\ t_state t = [0%R].
Proof.
  intros loc.
  pose proof (train_body_total 1 Toy.net Toy.adam_step Toy.rand Toy.randint
                Toy.env_reset Toy.env_step Toy.action_space_sample 2 50 1 loc
                (Toy.fresh 10) toy_net_ok toy_env_ok eq_refl eq_refl
                toy_train_ready) as Hwp.
  unfold wp in Hwp.
  destruct (train_body 1 Toy.net Toy.adam_step Toy.rand Toy.randint
              Toy.env_reset Toy.env_step Toy.action_space_sample 50 1 loc
              (Toy.fresh 10)) as [loc' w'|e w'] eqn:Hrun; [|destruct Hwp].
  exists loc', w'. split; [reflexivity|].
  destruct (train_body_rewards 1 Toy.net Toy.adam_step Toy.rand Toy.randint
              Toy.env_reset Toy.env_step Toy.action_space_sample 50 1
              loc loc' (Toy.fresh 10) w' Hrun) as (t & Hlast & Hstate & _).
  by exists t.
Defined.
